(** * tr1d1um: the device-connection hub and the retry transactor

    A shallow embedding of [device/manager.go] (the [manager] type: [Connect],
    [pumpClose], [readPump], [writePump], [Disconnect], [Route]) and of the
    retry decorator of package [xhttp] ([DefaultShouldRetry],
    [RetryTransactor]), together with the properties the design document
    states about them.

    Conventions.
    - A Go [error] is [option Err]: [None] is [nil].
    - A Go [int] is a [Z] in the 64-bit two's complement range, and the one
      addition the code performs on it is wrapped explicitly ([wrap64]).
    - Side effects (log lines, writes to the transport, listener dispatch,
      channel operations, goroutine starts) are collected, in program order,
      in a list of [Action]s; mutable state shared between goroutines is
      passed explicitly.
    - What the runtime or the peer decides (the result of a read, of a write,
      of [Close], which [select] case fires) is an input of the model. *)

From Stdlib.Strings Require Import Byte.
From stdpp Require Import gmap strings list.

Local Open Scope Z_scope.

(** ** Common data *)

Definition bytes := list byte.

#[global] Instance byte_eq_dec : EqDecision byte := Byte.byte_eq_dec.

(** The dynamic content of a non-nil Go [error].  [err_temporary] is [None]
    when the error's type has no [Temporary() bool] method, and [Some b] when
    it has one that returns [b]. *)
Record Err := mkErr { err_msg : string; err_temporary : option bool }.

Definition error := option Err.

Definition plainErr (msg : string) : Err := mkErr msg None.

#[global] Instance Err_eq_dec : EqDecision Err.
Proof. solve_decision. Defined.

(** Go's [int] on the 64-bit targets the service is built for. *)
Definition max_int : Z := 2 ^ 63 - 1.
Definition min_int : Z := - 2 ^ 63.
Definition is_int (z : Z) : Prop := min_int <= z <= max_int.
Definition wrap64 (z : Z) : Z := (z + 2 ^ 63) mod 2 ^ 64 - 2 ^ 63.

(** ** Package [xhttp]: the retry transactor *)

Module Xhttp.

Record HttpRequest := mkRequest { req_url : string; req_body : bytes }.
Record HttpResponse := mkResponse { resp_status : Z; resp_body : bytes }.

(** A line written by the transactor to its go-kit logger. *)
Inductive LogLine :=
| Retrying (url : string) (err : Err) (attempt : Z)
| AllRetriesFailed (url : string) (err : Err) (attempts : Z).

(** [DefaultShouldRetry]: true iff [err] has a [Temporary] method and that
    method returns true. *)
Definition DefaultShouldRetry (err : Err) : bool :=
  match err_temporary err with
  | Some temp => temp
  | None => false
  end.

Section Transactor.
(** Everything a request function can act on: the network, the remote
    server, the log sink, the metrics registry. *)
Context {W : Type}.

(** The Go type [func(request) (response, error)] of [http.Client.Do]. *)
Definition Transactor : Type :=
  HttpRequest -> W -> (option HttpResponse * error) * W.

(** [RetryOptions]; a field left unset is [None].  [Counter] stands for
    [Counter.Add(1.0)]. *)
Record RetryOptions := mkOptions {
  Logger : option (LogLine -> W -> W);
  Retries : Z;
  ShouldRetry : option (Err -> bool);
  Counter : option (W -> W)
}.

(** [logging.DefaultLogger()] *)
Variable DefaultLogger : LogLine -> W -> W.

Definition logger (o : RetryOptions) : LogLine -> W -> W :=
  match Logger o with Some l => l | None => DefaultLogger end.

Definition shouldRetry (o : RetryOptions) : Err -> bool :=
  match ShouldRetry o with Some p => p | None => DefaultShouldRetry end.

Definition counterAdd (o : RetryOptions) (w : W) : W :=
  match Counter o with Some add => add w | None => w end.

(** The [for i := 0; i < attempts; i++] loop of the decorated function:
    [remaining] is the number of iterations still allowed, [i] the loop
    index, [last] the current values of [response] and [err]. *)
Fixpoint retryLoop (o : RetryOptions) (next : Transactor) (request : HttpRequest)
    (remaining : nat) (i : Z) (last : option HttpResponse * error) (w : W)
    : (option HttpResponse * error) * W :=
  match remaining with
  | O => (last, w)
  | S remaining' =>
      let '(result, w1) := next request w in
      match snd result with
      | Some err =>
          if shouldRetry o err then
            let w2 := logger o (Retrying (req_url request) err (i + 1)) w1 in
            let w3 := counterAdd o w2 in
            retryLoop o next request remaining' (i + 1) result w3
          else (result, w1)
      | None => (result, w1)
      end
  end.

(** The function [RetryTransactor] returns when it decorates.  The number
    of attempts is the [int] sum [o.Retries + 1]; the loop runs while
    [i < attempts], that is [attempts] times, and not at all when [attempts]
    is not positive. *)
Definition retrying (o : RetryOptions) (next : Transactor) : Transactor :=
  fun request w =>
    let attempts := wrap64 (Retries o + 1) in
    let '(result, w1) :=
      retryLoop o next request (Z.to_nat attempts) 0 (None, None) w in
    match snd result with
    | Some err =>
        (result, logger o (AllRetriesFailed (req_url request) err attempts) w1)
    | None => (result, w1)
    end.

(** [RetryTransactor] *)
Definition RetryTransactor (o : RetryOptions) (next : Transactor) : Transactor :=
  if decide (Retries o < 1) then next else retrying o next.

End Transactor.

Arguments Transactor : clear implicits.
Arguments RetryOptions : clear implicits.

(** *** Observing the attempts

    To speak about the calls the decorated function makes, the wrapped
    function is instrumented: [recording next] behaves as [next] and
    appends what each call returned to a journal kept beside the world.
    The logger and the counter of the options are lifted so that they leave
    the journal alone. *)

Definition Attempt : Type := option HttpResponse * error.

Section Recording.
Context {W : Type}.

Definition recording (next : Transactor W) : Transactor (W * list Attempt) :=
  fun request '(w, journal) =>
    let '(result, w') := next request w in
    (result, (w', journal ++ [result])).

(** Dropping the journal from what an instrumented function returns. *)
Definition forget {A : Type} (r : A * (W * list Attempt)) : A * W :=
  (fst r, fst (snd r)).

Definition liftW {A : Type} (f : A -> W -> W) : A -> W * list Attempt -> W * list Attempt :=
  fun a '(w, journal) => (f a w, journal).

Definition liftOptions (o : RetryOptions W) : RetryOptions (W * list Attempt) :=
  {| Logger := liftW <$> Logger o;
     Retries := Retries o;
     ShouldRetry := ShouldRetry o;
     Counter := (fun add '(w, journal) => (add w, journal)) <$> Counter o |}.
End Recording.

(** An attempt after which the loop goes round again. *)
Definition retryable (p : Err -> bool) (a : Attempt) : bool :=
  match snd a with
  | Some err => p err
  | None => false
  end.

End Xhttp.

(** ** Package [device]: the manager *)

Module Device.

Definition ID := string.

(** The address of a [device] object; two [*device] values are the same
    device iff their addresses are equal. *)
Definition ptr := nat.

(** [wrp.Format] *)
Inductive Format := JSON | Msgpack.

#[global] Instance Format_eq_dec : EqDecision Format.
Proof. solve_decision. Defined.

(** The fields of [wrp.Message] the manager looks at or passes on. *)
Record Message := mkMessage {
  msgType : Z;
  msgSource : string;
  msgDestination : string;
  msgTransactionUUID : string;
  msgPayload : bytes
}.

#[global] Instance Message_eq_dec : EqDecision Message.
Proof. solve_decision. Defined.

Definition SimpleRequestResponseMessageType : Z := 3.

(** [websocket.TextMessage] and [websocket.BinaryMessage] *)
Definition TextMessage : Z := 1.
Definition BinaryMessage : Z := 2.

(** [device.Request] *)
Record Request := mkRequest {
  reqMessage : Message;
  reqFormat : Format;
  reqContents : bytes
}.

(** [device.Response] *)
Record Response := mkResponse {
  respDevice : ptr;
  respMessage : Message;
  respFormat : Format;
  respContents : bytes
}.

(** What the manager uses of package [wrp] and of [Request]: the Msgpack
    decoder and encoder, the two transaction methods of a message, the
    resolution of a request's destination ([Request.ID]), and the zero value
    of [wrp.Format], which is the format of an event built without one (the
    declaration of the constants is not among the sources).  They are
    interfaces to code outside the manager, so the manager is modelled over
    any implementation of them. *)
Class Wrp := {
  zeroFormat : Format;
  decode : bytes -> Err + Message;
  encode : Message -> Err + bytes;
  IsTransactionPart : Message -> bool;
  TransactionKey : Message -> string;
  RequestID : Request -> Err + ID
}.

(** An [envelope] is a request waiting in a device's queue together with
    the channel ([complete]) on which its sender waits for the outcome. *)
Record envelope := mkEnvelope {
  request : Request;
  complete : nat
}.

Inductive EventType :=
| Connect | Disconnect | MessageSent | MessageReceived | MessageFailed
| TransactionComplete | TransactionBroken.

#[global] Instance EventType_eq_dec : EqDecision EventType.
Proof. solve_decision. Defined.

(** [device.Event]; a field the code leaves out of a composite literal has
    its zero value. *)
Record Event := mkEvent {
  evType : EventType;
  evDevice : ptr;
  evMessage : option Message;
  evFormat : Format;
  evContents : bytes;
  evError : error
}.

#[global] Instance Event_eq_dec : EqDecision Event.
Proof. solve_decision. Defined.

Definition withType (t : EventType) (e : Event) : Event :=
  mkEvent t (evDevice e) (evMessage e) (evFormat e) (evContents e) (evError e).

Definition withError (err : error) (e : Event) : Event :=
  mkEvent (evType e) (evDevice e) (evMessage e) (evFormat e) (evContents e) err.

Inductive Level := DebugLevel | ErrorLevel.

Inductive Pump := ReadPump | WritePump.

(** The observable effects of the manager, in program order.  A [Log]
    keeps the level, the message and the error logged with it, if any. *)
Inductive Action :=
| Log (lvl : Level) (msg : string) (err : error)
| WriteError (code : Z) (err : Err)             (* [xhttp.WriteError] on the HTTP response *)
| Upgrade                                       (* [m.upgrader.Upgrade] *)
| ConnClose                                     (* [Close] on the websocket connection *)
| WriteMessage (messageType : Z) (data : bytes) (* [w.WriteMessage] *)
| Ping                                          (* a call of the pinger *)
| Dispatch (e : Event)                          (* [m.dispatch(e)] *)
| SetPongHandler
| Go (pump : Pump) (d : ptr)                    (* a [go] statement *)
| RequestResponseAdd                            (* [m.measures.RequestResponse.Add(1.0)] *)
| ChanSend (ch : nat) (err : Err)               (* [ch <- err] *)
| ChanClose (ch : nat)                          (* [close(ch)] *)
| TickerStop
| TimerStop.

Definition Listener := nat.

(** [manager.dispatch]: every listener is called with the event, in the
    order of [m.listeners]. *)
Definition dispatch (listeners : list Listener) (e : Event) : list (Listener * Event) :=
  map (fun listener => (listener, e)) listeners.

(** The listener calls a trace gives rise to. *)
Definition notifications (listeners : list Listener) (trace : list Action)
    : list (Listener * Event) :=
  flat_map (fun a => match a with Dispatch e => dispatch listeners e | _ => [] end) trace.

Definition ErrorMissingDeviceNameContext : Err := plainErr "Missing device name in context".
Definition ErrorDeviceNotFound : Err := plainErr "The device does not exist".
Definition ErrorMaxDevicesExceeded : Err := plainErr "Maximum number of devices exceeded".
Definition ErrorDuplicateDevice : Err := plainErr "That device is already in this registry".
Definition ErrorNoSuchTransactionKey : Err := plainErr "That transaction key is not registered".

Definition StatusInternalServerError : Z := 500.

(** *** The device *)

(** The mutable state of a [device]: its queue of outbound envelopes (the
    buffered channel [d.messages], oldest first), whether [d.shutdown] has
    been closed, and the keys of the transactions waiting for a reply. *)
Record device := mkDevice {
  self : ptr;
  id : ID;
  messages : list envelope;
  shutdown : bool;
  transactions : gset string
}.

Definition newDevice (addr : ptr) (deviceID : ID) : device :=
  mkDevice addr deviceID [] false ∅.

Definition requestClose (d : device) : device :=
  mkDevice (self d) (id d) (messages d) true (transactions d).

Definition setMessages (q : list envelope) (d : device) : device :=
  mkDevice (self d) (id d) q (shutdown d) (transactions d).

Definition setTransactions (t : gset string) (d : device) : device :=
  mkDevice (self d) (id d) (messages d) (shutdown d) t.

(** Modelled from the spec: [Transactions.Complete], whose source file is not
    among the sources.  "At most one completion is honored; a second attempt
    to complete the same key is an error": completing an open key closes it,
    completing a key that is not open (never opened, or already completed)
    fails. *)
Definition Complete (key : string) (pending : gset string) : gset string * error :=
  if decide (key ∈ pending) then (pending ∖ {[key]}, None)
  else (pending, Some ErrorNoSuchTransactionKey).

(** *** The registry *)

(** Modelled from the spec: the registry, whose source file is not among
    the sources.  A table from identifier to device with a maximum size;
    [add] "fails with CapacityExceeded if at the configured device limit, or
    DuplicateID if the identifier is already present" and leaves the table as
    it was; [remove] "removes and returns the prior occupant"; [get] is a pure
    lookup. *)
Record registry := mkRegistry {
  limit : nat;
  data : gmap ID ptr
}.

Definition registry_add (deviceID : ID) (d : ptr) (r : registry) : registry * error :=
  if decide (limit r <= size (data r))%nat then (r, Some ErrorMaxDevicesExceeded)
  else match data r !! deviceID with
       | Some _ => (r, Some ErrorDuplicateDevice)
       | None => (mkRegistry (limit r) (<[deviceID := d]> (data r)), None)
       end.

Definition registry_remove (deviceID : ID) (r : registry) : registry * option ptr :=
  (mkRegistry (limit r) (delete deviceID (data r)), data r !! deviceID).

Definition registry_get (deviceID : ID) (r : registry) : option ptr :=
  data r !! deviceID.

(** *** What the goroutines of one connection share *)

(** The registry of the manager, the device, and the [sync.Once] that
    [Connect] allocates for the two pumps ([closeOnce] is true once its
    function has been run). *)
Record Hub := mkHub {
  devices : registry;
  dev : device;
  closeOnce : bool
}.

Definition setDev (d : device) (h : Hub) : Hub :=
  mkHub (devices h) d (closeOnce h).

(** [m.devices.remove(id)] as seen from this connection: the entry is
    deleted and the removed device is asked to close ("remove will invoke
    requestClose()"); when the removed device is this connection's, its
    shutdown signal is raised. *)
Definition remove (deviceID : ID) (h : Hub) : Hub * bool :=
  let '(r, removed) := registry_remove deviceID (devices h) in
  match removed with
  | Some d =>
      (mkHub r (if decide (d = self (dev h)) then requestClose (dev h) else dev h)
             (closeOnce h), true)
  | None => (mkHub r (dev h) (closeOnce h), false)
  end.

(** [sync.Once.Do]: [f] runs on the first call only.  Calls of [Do] on one
    [Once] exclude each other, so a call is one indivisible step. *)
Definition onceDo (f : Hub -> Hub * list Action) (h : Hub) : Hub * list Action :=
  if closeOnce h then (h, [])
  else f (mkHub (devices h) (dev h) true).

(** The two log lines of [pumpClose]: how the pump ended, and how closing
    the connection went. *)
Definition pumpCloseLog (pumpError : error) : Action :=
  match pumpError with
  | Some e => Log ErrorLevel "pump close due to error" (Some e)
  | None => Log DebugLevel "pump close" None
  end.

Definition connCloseLog (closeError : error) : Action :=
  match closeError with
  | Some e => Log ErrorLevel "Error closing device connection" (Some e)
  | None => Log DebugLevel "Closed device connection" None
  end.

(** The event [pumpClose] dispatches: a type and a device, nothing else. *)
Definition disconnectEvent `{Wrp} (d : device) : Event :=
  mkEvent Disconnect (self d) None zeroFormat [] None.

(** [manager.pumpClose]; [closeError] is what [c.Close()] returns. *)
Definition pumpClose `{Wrp} (closeError pumpError : error) (h : Hub)
    : Hub * list Action :=
  let h1 := fst (remove (id (dev h)) h) in
  (h1, [pumpCloseLog pumpError; ConnClose; connCloseLog closeError;
        Dispatch (disconnectEvent (dev h))]).

(** *** The read pump *)

(** What [r.ReadMessage()] returns. *)
Inductive ReadResult :=
| ReadError (readError : Err)
| Frame (messageType : Z) (data : bytes).

Section Pumps.
Context `{Wrp}.

(** The body of the [for] loop of [readPump] after a successful read. *)
Definition readFrame (messageType : Z) (data : bytes) (d : device) : device * list Action :=
  if decide (messageType ≠ BinaryMessage) then
    (d, [Log ErrorLevel "skipping non-binary frame" None])
  else
    match decode data with
    | inl err => (d, [Log ErrorLevel "skipping malformed WRP message" (Some err)])
    | inr message =>
        let event := mkEvent MessageReceived (self d) (Some message) Msgpack data None in
        let measured :=
          if decide (msgType message = SimpleRequestResponseMessageType)
          then [RequestResponseAdd] else [] in
        if IsTransactionPart message then
          let '(pending, err) := Complete (TransactionKey message) (transactions d) in
          match err with
          | Some e =>
              (setTransactions pending d,
               measured ++ [Log ErrorLevel "Error while completing transaction" (Some e);
                            Dispatch (withError (Some e) (withType TransactionBroken event))])
          | None =>
              (setTransactions pending d,
               measured ++ [Dispatch (withType TransactionComplete event)])
          end
        else (d, measured ++ [Dispatch event])
    end.

(** The deferred calls of [readPump], in the order they run.  The variable
    [readError] the closure passes to [pumpClose] is the one declared in the
    [var] block; the loop assigns the result of [ReadMessage] to a variable
    of the same name that [:=] declares in the loop's scope, so the outer
    one is [nil] when the closure runs. *)
Definition readPump_defer (closeError : error) (h : Hub) : Hub * list Action :=
  let readError : error := None in
  let '(h1, t) := onceDo (pumpClose closeError readError) h in
  (h1, t ++ [Log DebugLevel "readPump exiting" None]).

(** One iteration of [readPump]: the result of the read, and whether the
    goroutine is still running afterwards. *)
Definition readPump_iter (r : ReadResult) (closeError : error) (h : Hub)
    : Hub * list Action * bool :=
  match r with
  | ReadError readError =>
      let '(h1, t) := readPump_defer closeError h in
      (h1, Log ErrorLevel "read error" (Some readError) :: t, false)
  | Frame messageType data =>
      let '(d, t) := readFrame messageType data (dev h) in
      (setDev d h, t, true)
  end.

(** [readPump] on the reads the connection delivers, in order; when they
    run out the goroutine is blocked in [ReadMessage]. *)
Fixpoint readLoop (reads : list ReadResult) (closeError : error) (h : Hub)
    : Hub * list Action * bool :=
  match reads with
  | [] => (h, [], true)
  | r :: reads' =>
      let '(h1, t1, running) := readPump_iter r closeError h in
      if running then
        let '(h2, t2, running') := readLoop reads' closeError h1 in
        (h2, t1 ++ t2, running')
      else (h1, t1, false)
  end.

Definition readPump (reads : list ReadResult) (closeError : error) (h : Hub)
    : Hub * list Action * bool :=
  let '(h1, t, running) := readLoop reads closeError h in
  (h1, Log DebugLevel "readPump starting" None :: t, running).

(** *** The write pump *)

(** The case of the [select] that fires, with what the transport answers
    in that case: the result of [w.Close()], of [w.WriteMessage] (should the
    write be attempted), of the pinger. *)
Inductive Wake :=
| WShutdown (closeResult : error)
| WMessage (writeResult : error)
| WTick (pingResult : error).

Definition failedEvent (d : device) (e : envelope) (writeError : error) : Event :=
  mkEvent MessageFailed (self d) (Some (reqMessage (request e)))
          (reqFormat (request e)) (reqContents (request e)) writeError.

(** The [for { select { case undeliverable := <-d.messages: ... default:
    return } }] loop of the deferred function. *)
Definition drain (d : device) (writeError : error) (queue : list envelope) : list Action :=
  flat_map (fun undeliverable =>
              [Log ErrorLevel "undeliverable message" None;
               Dispatch (failedEvent d undeliverable writeError)]) queue.

(** The deferred calls of [writePump], with the values [writeError] and
    [envelope] have when the function returns. *)
Definition writePump_defer (writeError : error) (current : option envelope)
    (closeError : error) (h : Hub) : Hub * list Action :=
  let '(h1, closing) := onceDo (pumpClose closeError writeError) h in
  let justFailed :=
    match current with
    | Some e => [Dispatch (failedEvent (dev h1) e writeError)]
    | None => []
    end in
  (setDev (setMessages [] (dev h1)) h1,
   [TickerStop; TimerStop] ++ closing ++ justFailed
     ++ drain (dev h1) writeError (messages (dev h1))
     ++ [Log DebugLevel "writePump exiting" None]).

(** The [case envelope = <-d.messages] branch: the frame written, if any,
    the value of [writeError] at the end of the branch, and the effects. *)
Definition sendEnvelope (d : device) (e : envelope) (writeResult : error)
    : error * list Action :=
  let '(frameContents, encodeError) :=
    if decide (reqFormat (request e) = Msgpack ∧ (0 < length (reqContents (request e)))%nat)
    then (reqContents (request e), None)
    else match encode (reqMessage (request e)) with
         | inr encoded => (encoded, None)
         | inl err => ([], Some err)
         end in
  let '(writeError, written) :=
    match encodeError with
    | None => (writeResult, [WriteMessage BinaryMessage frameContents])
    | Some _ => (encodeError, [])
    end in
  let event :=
    mkEvent MessageSent (self d) (Some (reqMessage (request e)))
            (reqFormat (request e)) (reqContents (request e)) writeError in
  match writeError with
  | Some err =>
      (writeError,
       written ++ [ChanSend (complete e) err; ChanClose (complete e);
                   Dispatch (withType MessageFailed event)])
  | None =>
      (writeError,
       written ++ [ChanClose (complete e); Dispatch (withType MessageSent event)])
  end.

(** One iteration of the [for writeError == nil] loop of [writePump],
    followed by the deferred calls when the iteration ends the function.
    A case whose channel is not ready cannot fire: the pump stays blocked. *)
Definition writePump_iter (w : Wake) (closeError : error) (h : Hub)
    : Hub * list Action * bool :=
  match w with
  | WShutdown closeResult =>
      if shutdown (dev h) then
        let '(h1, t) := writePump_defer closeResult None closeError h in
        (h1, [Log DebugLevel "explicit shutdown" None; ConnClose] ++ t, false)
      else (h, [], true)
  | WMessage writeResult =>
      match messages (dev h) with
      | [] => (h, [], true)
      | e :: queue =>
          let h0 := setDev (setMessages queue (dev h)) h in
          let '(writeError, t0) := sendEnvelope (dev h) e writeResult in
          match writeError with
          | None => (h0, t0, true)
          | Some _ =>
              let '(h1, t) := writePump_defer writeError (Some e) closeError h0 in
              (h1, t0 ++ t, false)
          end
      end
  | WTick pingResult =>
      match pingResult with
      | None => (h, [Ping], true)
      | Some _ =>
          let '(h1, t) := writePump_defer pingResult None closeError h in
          (h1, Ping :: t, false)
      end
  end.

Fixpoint writeLoop (wakes : list Wake) (closeError : error) (h : Hub)
    : Hub * list Action * bool :=
  match wakes with
  | [] => (h, [], true)
  | w :: wakes' =>
      let '(h1, t1, running) := writePump_iter w closeError h in
      if running then
        let '(h2, t2, running') := writeLoop wakes' closeError h1 in
        (h2, t1 ++ t2, running')
      else (h1, t1, false)
  end.

Definition writePump (wakes : list Wake) (closeError : error) (h : Hub)
    : Hub * list Action * bool :=
  let '(h1, t, running) := writeLoop wakes closeError h in
  (h1, Log DebugLevel "writePump starting" None :: t, running).

(** *** Connect, Disconnect, Route

    The methods of [manager] carry the receiver's name, the event types
    [Connect] and [Disconnect] being constants of the same package. *)

(** [conveyhttp.ErrMissingHeader] *)
Definition ErrMissingHeader : Err := plainErr "No convey header present".

(** What [Connect] reads of the upgrade request: the device identifier the
    authentication stage put in the context ([GetID]), and the error of
    parsing the convey header. *)
Record ConnectRequest := mkConnectRequest {
  contextID : option ID;
  conveyError : error
}.

(** [manager.Connect].  [addr] is the address [newDevice] allocates at,
    [upgraded] the outcome of the websocket upgrade (the connection's local
    address on success), [pingerError] the error of [NewPinger].  The result
    is the Go pair [(Interface, error)], of which exactly one is non-nil. *)
Definition manager_Connect (request : ConnectRequest) (addr : ptr)
    (upgraded : Err + string) (pingerError : error) (r : registry)
    : (Err + device) * registry * list Action :=
  let t0 := [Log DebugLevel "device connect" None] in
  match contextID request with
  | None =>
      (inl ErrorMissingDeviceNameContext, r,
       t0 ++ [WriteError StatusInternalServerError ErrorMissingDeviceNameContext])
  | Some deviceID =>
      let d := newDevice addr deviceID in
      let t1 :=
        match conveyError request with
        | None => [Log DebugLevel "convey" None]
        | Some err =>
            if decide (err ≠ ErrMissingHeader)
            then [Log ErrorLevel "badly formatted convey data" (Some err)]
            else []
        end in
      match upgraded with
      | inl err =>
          (inl err, r,
           t0 ++ t1 ++ [Upgrade; Log ErrorLevel "failed websocket upgrade" (Some err)])
      | inr localAddress =>
          let t2 := [Upgrade; Log DebugLevel "websocket upgrade complete" None] in
          match pingerError with
          | Some err =>
              (inl err, r,
               t0 ++ t1 ++ t2
                 ++ [Log ErrorLevel "unable to create pinger" (Some err); ConnClose])
          | None =>
              let '(r1, addError) := registry_add (id d) (self d) r in
              match addError with
              | Some err =>
                  (inl err, r1,
                   t0 ++ t1 ++ t2
                     ++ [Log ErrorLevel "unable to register device" (Some err); ConnClose])
              | None =>
                  (inr d, r1,
                   t0 ++ t1 ++ t2
                     ++ [Dispatch (mkEvent Connect (self d) None zeroFormat [] None);
                         SetPongHandler;
                         Go ReadPump (self d);
                         Go WritePump (self d)])
              end
          end
      end
  end.

(** [manager.Disconnect] *)
Definition manager_Disconnect (deviceID : ID) (h : Hub) : Hub * bool :=
  remove deviceID h.

(** [manager.Route].  [Send] is the send operation of the device at an
    address; it acts on the state [W] of the devices (their queues and
    transactions), which the manager itself does not touch. *)
Definition manager_Route {W : Type} (Send : ptr -> Request -> W -> (option Response * error) * W)
    (request : Request) (r : registry) (w : W)
    : (option Response * error) * registry * W :=
  match RequestID request with
  | inl err => ((None, Some err), r, w)
  | inr destination =>
      match registry_get destination r with
      | Some d => let '(result, w1) := Send d request w in (result, r, w1)
      | None => ((None, Some ErrorDeviceNotFound), r, w)
      end
  end.

(** *** A connection under an arbitrary schedule *)

(** The two goroutines [Connect] starts and the callers of the manager run
    concurrently.  A [Session] is the state they share plus which of the two
    pumps is still running; a [Stimulus] is one step of one of them: an
    iteration of the read pump, an iteration of the write pump, a call of
    [Disconnect], or a sender putting an envelope in the device's queue.
    Every interleaving of the goroutines is a list of stimuli. *)
Record Session := mkSession {
  hub : Hub;
  reading : bool;
  writing : bool
}.

Inductive Stimulus :=
| Reads (r : ReadResult) (closeError : error)
| Wakes (w : Wake) (closeError : error)
| Disconnects (deviceID : ID)
| Enqueues (e : envelope).

(** The session [Connect] leaves behind when it returns a device. *)
Definition connected (r : registry) (d : device) : Session :=
  mkSession (mkHub r d false) true true.

Definition step (s : Stimulus) (c : Session) : Session * list Action :=
  match s with
  | Reads r closeError =>
      if reading c then
        let '(h, t, running) := readPump_iter r closeError (hub c) in
        (mkSession h running (writing c), t)
      else (c, [])
  | Wakes w closeError =>
      if writing c then
        let '(h, t, running) := writePump_iter w closeError (hub c) in
        (mkSession h (reading c) running, t)
      else (c, [])
  | Disconnects deviceID =>
      (mkSession (fst (manager_Disconnect deviceID (hub c))) (reading c) (writing c), [])
  | Enqueues e =>
      let d := dev (hub c) in
      (mkSession (setDev (setMessages (messages d ++ [e]) d) (hub c))
                 (reading c) (writing c), [])
  end.

Fixpoint run (schedule : list Stimulus) (c : Session) : Session * list Action :=
  match schedule with
  | [] => (c, [])
  | s :: schedule' =>
      let '(c1, t1) := step s c in
      let '(c2, t2) := run schedule' c1 in
      (c2, t1 ++ t2)
  end.

End Pumps.

(** The steps that are failures of the connection whatever the state: a
    read that fails, a ping that fails. *)
Definition fatal (s : Stimulus) : bool :=
  match s with
  | Reads (ReadError _) _ => true
  | Wakes (WTick (Some _)) _ => true
  | _ => false
  end.

(** *** Reading a trace *)

(** The events dispatched, in order. *)
Definition events (trace : list Action) : list Event :=
  flat_map (fun a => match a with Dispatch e => [e] | _ => [] end) trace.

Definition eventsOfType (t : EventType) (trace : list Action) : list Event :=
  filter (fun e => evType e = t) (events trace).

(** The actions only [pumpClose] performs: its two log lines and the
    dispatch of the disconnect event. *)
Definition teardownAction (a : Action) : bool :=
  match a with
  | Log _ msg _ =>
      bool_decide (msg = "pump close due to error" ∨ msg = "pump close"
                   ∨ msg = "Error closing device connection"
                   ∨ msg = "Closed device connection")%string
  | Dispatch e => bool_decide (evType e = Disconnect)
  | _ => false
  end.

Definition teardowns (trace : list Action) : list Action :=
  List.filter teardownAction trace.

(** A trace without its log lines. *)
Definition unlogged (trace : list Action) : list Action :=
  List.filter (fun a => match a with Log _ _ _ => false | _ => true end) trace.

(** The goroutines started. *)
Definition started (trace : list Action) : list (Pump * ptr) :=
  flat_map (fun a => match a with Go pump d => [(pump, d)] | _ => [] end) trace.

Definition isUpgrade (a : Action) : bool :=
  match a with Upgrade => true | _ => false end.

Definition isConnClose (a : Action) : bool :=
  match a with ConnClose => true | _ => false end.

Definition writes (trace : list Action) : list bytes :=
  flat_map (fun a => match a with WriteMessage _ frame => [frame] | _ => [] end) trace.

End Device.

(** ** Sample data

    Concrete inputs on which the definitions above are evaluated. *)

Module Sample.

(** A server that is never reachable: every call fails with a temporary
    error; the world counts the calls. *)
Definition ioTimeout : Err := mkErr "i/o timeout" (Some true).

Definition unreachable : Xhttp.Transactor nat :=
  fun _ calls => ((None, Some ioTimeout), S calls).

Definition silent : Xhttp.LogLine -> nat -> nat := fun _ w => w.

Definition twoRetries : Xhttp.RetryOptions nat :=
  Xhttp.mkOptions None 2 None None.

Definition get : Xhttp.HttpRequest := Xhttp.mkRequest "http://localhost:8090/api/v2" [].

(** A toy wire format: the first byte of a frame is the message type, the
    second the transaction UUID (0 for none), the rest the payload. *)
Definition toyDecode (frame : bytes) : Err + Device.Message :=
  match frame with
  | t :: u :: payload =>
      inr (Device.mkMessage (Z.of_N (Byte.to_N t)) "dns:talaria" "mac:112233445566"
             (if decide (u = x00) then "" else String (Ascii.ascii_of_byte u) "")
             payload)
  | _ => inl (plainErr "unexpected EOF")
  end.

Definition toyEncode (m : Device.Message) : Err + bytes :=
  match Byte.of_N (Z.to_N (Device.msgType m)) with
  | Some t => inr (t :: x00 :: Device.msgPayload m)
  | None => inl (plainErr "message type out of range")
  end.

Definition toy : Device.Wrp :=
  {| Device.zeroFormat := Device.Msgpack;
     Device.decode := toyDecode;
     Device.encode := toyEncode;
     Device.IsTransactionPart m :=
       bool_decide (Device.msgType m = Device.SimpleRequestResponseMessageType)
       && negb (String.eqb (Device.msgTransactionUUID m) "");
     Device.TransactionKey := Device.msgTransactionUUID;
     Device.RequestID r :=
       if String.eqb (Device.msgDestination (Device.reqMessage r)) ""
       then inl (plainErr "invalid device id")
       else inr (Device.msgDestination (Device.reqMessage r)) |}.

Definition brokenPipe : Err := plainErr "write: broken pipe".

(** A request/response message with transaction UUID "A", and the frame
    that carries it. *)
Definition reply : Device.Message :=
  Device.mkMessage 3 "dns:talaria" "mac:112233445566" "A" [x2a].
Definition replyFrame : bytes := [x03; x41; x2a].

(** An event message (no transaction) in JSON form, queued without bytes. *)
Definition notice : Device.Message :=
  Device.mkMessage 4 "dns:talaria" "mac:112233445566" "" [x01].
Definition noticeEnvelope : Device.envelope :=
  Device.mkEnvelope (Device.mkRequest notice Device.JSON []) 7%nat.

(** A message already in wire format. *)
Definition packedEnvelope : Device.envelope :=
  Device.mkEnvelope (Device.mkRequest reply Device.Msgpack replyFrame) 8%nat.

(** The registry of a hub with room for ten devices, holding "dev-1". *)
Definition oneDevice : Device.registry :=
  Device.mkRegistry 10 {[ "dev-1" := 1%nat ]}.

(** "dev-1" with a given queue, waiting for the reply to transaction "A". *)
Definition dev1 (queue : list Device.envelope) : Device.device :=
  Device.mkDevice 1%nat "dev-1" queue false {[ "A" ]}.

(** A request addressed to a device that is not connected. *)
Definition toDev2 : Device.Request :=
  Device.mkRequest (Device.mkMessage 3 "dns:tr1d1um" "dev-2" "B" []) Device.JSON [].

(** A send operation that is never reached in the examples. *)
Definition noSend : Device.ptr -> Device.Request -> unit ->
                    (option Device.Response * error) * unit :=
  fun _ _ w => ((None, None), w).

(** A hub that is full with its one device. *)
Definition fullHouse : Device.registry :=
  Device.mkRegistry 1 {[ "dev-1" := 1%nat ]}.

Definition hub1 (queue : list Device.envelope) : Device.Hub :=
  Device.mkHub oneDevice (dev1 queue) false.

End Sample.

(** ** Instruments

    Observers added around the code to state the further properties: they
    count and record, and change nothing of what the code computes. *)

Module Probe.
Import Xhttp.

(** What is observed of a decorated call: how often the wrapped function was
    called, how often the retry counter was incremented, and the lines
    written to the logger. *)
Record Meter := mkMeter {
  calls : nat;
  counted : nat;
  logged : list LogLine
}.

Section Observing.
Context {W : Type}.

(** [next], counting its calls. *)
Definition observing (next : Transactor W) : Transactor (W * Meter) :=
  fun request '(w, m) =>
    let '(result, w') := next request w in
    (result, (w', mkMeter (S (calls m)) (counted m) (logged m))).

(** Options whose logger appends to the meter's log and whose counter is
    the meter's. *)
Definition metered (retries : Z) (classify : option (Err -> bool))
    : RetryOptions (W * Meter) :=
  {| Logger := Some (fun line '(w, m) =>
                       (w, mkMeter (calls m) (counted m) (logged m ++ [line])));
     Retries := retries;
     ShouldRetry := classify;
     Counter := Some (fun '(w, m) =>
                        (w, mkMeter (calls m) (S (counted m)) (logged m))) |}.

End Observing.

(** The attempt numbers of the "retrying HTTP transaction" lines of a log,
    and the error and attempt count of its "All HTTP transaction retries
    failed" lines. *)
Definition retryLines (log : list LogLine) : list Z :=
  flat_map (fun line => match line with Retrying _ _ attempt => [attempt] | _ => [] end) log.

Definition failureLines (log : list LogLine) : list (Err * Z) :=
  flat_map (fun line => match line with
                        | AllRetriesFailed _ err attempts => [(err, attempts)]
                        | _ => []
                        end) log.

End Probe.

Module Observe.
Import Device.

(** The channels closed and the errors sent on channels, in order. *)
Definition closedChans (trace : list Action) : list nat :=
  flat_map (fun a => match a with ChanClose ch => [ch] | _ => [] end) trace.

Definition notified (trace : list Action) : list (nat * Err) :=
  flat_map (fun a => match a with ChanSend ch err => [(ch, err)] | _ => [] end) trace.

(** How often [Close] was called on the connection. *)
Definition closes (trace : list Action) : nat :=
  length (List.filter isConnClose trace).

(** The message-sent event of an envelope. *)
Definition sentEvent (d : device) (e : envelope) : Event :=
  mkEvent MessageSent (self d) (Some (reqMessage (request e)))
          (reqFormat (request e)) (reqContents (request e)) None.

(** [ev] reports the fate of envelope [e]: it is a message-sent or
    message-failed event with the envelope's message, format and contents. *)
Definition reports (e : envelope) (ev : Event) : Prop :=
  (evType ev = MessageSent \/ evType ev = MessageFailed)
  /\ evMessage ev = Some (reqMessage (request e))
  /\ evFormat ev = reqFormat (request e)
  /\ evContents ev = reqContents (request e).

(** The events other than the disconnect event. *)
Definition messageEvents (trace : list Action) : list Event :=
  filter (fun ev => evType ev ≠ Disconnect) (events trace).

(** The reads up to the first that fails. *)
Fixpoint beforeFailure (reads : list ReadResult) : list ReadResult :=
  match reads with
  | [] => []
  | ReadError _ :: _ => []
  | r :: reads' => r :: beforeFailure reads'
  end.

Section Frames.
Context `{Wrp}.

(** The bytes of the binary frames that decode. *)
Definition accepted (reads : list ReadResult) : list bytes :=
  flat_map (fun r => match r with
                     | Frame messageType data =>
                         if decide (messageType = BinaryMessage)
                         then match decode data with inr _ => [data] | inl _ => [] end
                         else []
                     | ReadError _ => []
                     end) reads.

End Frames.

End Observe.

(** ** Package [main]: the validators and the WDMP conversions *)

Module Tr1d1um.

Definition DefaultKeyID : string := "current".

(** *** [GetValidator] *)

Section Validators.
(** The key configuration and the custom claims of a JWT validator
    descriptor, the key resolvers and the JWT validators made from them
    ([Keys.NewResolver], [Custom.New]) belong to package [secure]. *)
Context {Keys Custom Resolver JWT : Type}.
Variable NewResolver : Keys -> Err + Resolver.
Variable New : Custom -> JWT.

Record JWTValidator := mkJWTValidator {
  jwtKeys : Keys;
  jwtCustom : Custom
}.

(** The members of a [secure.Validators] chain that [GetValidator] makes. *)
Inductive Validator :=
| JWSValidator (defaultKeyId : string) (resolver : Resolver) (jwtValidators : list JWT)
| ExactMatchValidator (value : string).

(** What [GetValidator] reads of the configuration: the list under
    "jwtValidators" and the strings under "authHeader". *)
Record Viper := mkViper {
  jwtValidators : list JWTValidator;
  authHeader : list string
}.

(** The [for _, validatorDescriptor := range jwtVals] loop; the function
    returns from inside it when a resolver cannot be made. *)
Fixpoint resolveAll (jwtVals : list JWTValidator) (validators : list Validator)
    : list Validator * error :=
  match jwtVals with
  | [] => (validators, None)
  | validatorDescriptor :: jwtVals' =>
      match NewResolver (jwtKeys validatorDescriptor) with
      | inl err => (validators, Some err)
      | inr keyResolver =>
          resolveAll jwtVals'
            (validators ++ [JWSValidator DefaultKeyID keyResolver
                                         [New (jwtCustom validatorDescriptor)]])
      end
  end.

(** [GetValidator] *)
Definition GetValidator (v : Viper) : list Validator * error :=
  let defaultValidators : list Validator := [] in
  let jwtVals := jwtValidators v in
  if decide (length jwtVals < 1)%nat then (defaultValidators, None)
  else
    let '(validators, err) := resolveAll jwtVals [] in
    match err with
    | Some _ => (validators, err)
    | None => (validators ++ map ExactMatchValidator (authHeader v), None)
    end.

(** The validator made for a descriptor whose keys resolve. *)
Definition madeFrom (validatorDescriptor : JWTValidator) (validator : Validator) : Prop :=
  exists keyResolver,
    NewResolver (jwtKeys validatorDescriptor) = inr keyResolver
    /\ validator = JWSValidator DefaultKeyID keyResolver
                                [New (jwtCustom validatorDescriptor)].

End Validators.

(** *** The WDMP conversions *)

(** [strings.Contains] *)
Fixpoint Contains (s substr : string) : bool :=
  String.prefix substr s
  || match s with
     | EmptyString => false
     | String _ s' => Contains s' substr
     end.

(** [Vars]: the path variables of a request; [None] is the nil map. *)
Definition Vars := option (gmap string string).

(** [http.Header], through its [Get]. *)
Definition Header := string -> string.

Record GetWDMP := mkGetWDMP {
  getCommand : string;
  getNames : list string;
  getAttribute : string
}.

Record DeleteRowWDMP := mkDeleteRowWDMP {
  deleteCommand : string;
  deleteRow : string
}.

Section Conversions.
(** The parameters of a SET, the row of an ADD_ROW and the rows of a
    REPLACE_ROWS are declared with the WDMP types, outside this file; a
    [Reader] is the body of a request. *)
Context {SetParam Row Rows Reader : Type}.

Record SetWDMP := mkSetWDMP {
  setCommand : string;
  setOldCid : string;
  setNewCid : string;
  setSyncCmc : string;
  setParameters : list SetParam
}.

Record AddRowWDMP := mkAddRowWDMP {
  addCommand : string;
  addTable : string;
  addRow : Row
}.

Record ReplaceRowsWDMP := mkReplaceRowsWDMP {
  replaceCommand : string;
  replaceTable : string;
  replaceRows : Rows
}.

(** The nil map, zero value of a row and of rows. *)
Variable nilRow : Row.
Variable nilRows : Rows.

(** The command names and header names, constants of the package declared
    outside this file. *)
Variables CommandGet CommandGetAttrs CommandSet CommandSetAttrs CommandTestSet : string.
Variables CommandDeleteRow CommandAddRow CommandReplaceRows : string.
Variables HeaderWPASyncNewCID HeaderWPASyncOldCID HeaderWPASyncCMC : string.

(** [strings.Split]; [validation.Validate(_, validation.Required)] on the
    parameters, on a row and on rows; [ValidateSETAttrParams]; and
    [DecodeJSON] of a body into a fresh SET document, into a nil row and
    into nil rows: what the decoder leaves in its target, and its error. *)
Variable Split : string -> string -> list string.
Variable requiredParameters : list SetParam -> error.
Variable requiredRow : Row -> error.
Variable requiredRows : Rows -> error.
Variable ValidateSETAttrParams : list SetParam -> error.
Variable decodeSet : Reader -> SetWDMP * error.
Variable decodeRow : Reader -> Row * error.
Variable decodeRows : Reader -> Rows * error.

(** [GetFromURLPath] *)
Definition GetFromURLPath (key : string) (urlVars : Vars) : string * bool :=
  match urlVars with
  | Some vars =>
      match vars !! key with
      | Some val => (val, true)
      | None => (""%string, false)
      end
  | None => (""%string, false)
  end.

(** [GetFlavorFormat]; [FormValue] is the request's. *)
Definition GetFlavorFormat (FormValue : string -> string) (attr namesKey sep : string)
    : GetWDMP * error :=
  let wdmp := mkGetWDMP "" [] "" in
  let nameGroup := FormValue namesKey in
  if negb (String.eqb nameGroup "") then
    let wdmp := mkGetWDMP CommandGet (Split nameGroup sep) (getAttribute wdmp) in
    let attributes := FormValue attr in
    if negb (String.eqb attributes "") then
      (mkGetWDMP CommandGetAttrs (getNames wdmp) attributes, None)
    else (wdmp, None)
  else (wdmp, Some (plainErr "names is a required property for GET")).

(** [ValidateAndDeduceSET] *)
Definition ValidateAndDeduceSET (header : Header) (wdmp : SetWDMP) : SetWDMP * error :=
  match requiredParameters (setParameters wdmp) with
  | None =>
      let newCid := header HeaderWPASyncNewCID in
      if negb (String.eqb newCid "") then
        let oldCid := header HeaderWPASyncOldCID in
        let syncCmc := header HeaderWPASyncCMC in
        (mkSetWDMP CommandTestSet oldCid newCid
                   (if negb (String.eqb syncCmc "") then syncCmc else setSyncCmc wdmp)
                   (setParameters wdmp), None)
      else
        (mkSetWDMP CommandSet (setOldCid wdmp) (setNewCid wdmp) (setSyncCmc wdmp)
                   (setParameters wdmp), None)
  | Some err =>
      let errMsg := err_msg err in
      if negb (String.eqb errMsg "cannot be blank" || Contains errMsg "name") then
        match ValidateSETAttrParams (setParameters wdmp) with
        | None =>
            (mkSetWDMP CommandSetAttrs (setOldCid wdmp) (setNewCid wdmp) (setSyncCmc wdmp)
                       (setParameters wdmp), None)
        | Some err' => (wdmp, Some err')
        end
      else (wdmp, Some err)
  end.

(** [SetFlavorFormat] *)
Definition SetFlavorFormat (header : Header) (body : Reader) : SetWDMP * error :=
  let '(wdmp, err) := decodeSet body in
  match err with
  | None => ValidateAndDeduceSET header wdmp
  | Some _ => (wdmp, err)
  end.

(** [DeleteFlavorFormat] *)
Definition DeleteFlavorFormat (urlVars : Vars) (rowKey : string) : DeleteRowWDMP * error :=
  let wdmp := mkDeleteRowWDMP CommandDeleteRow "" in
  let '(row, exists_) := GetFromURLPath rowKey urlVars in
  if exists_ && negb (String.eqb row "") then
    (mkDeleteRowWDMP (deleteCommand wdmp) row, None)
  else (wdmp, Some (plainErr "non-empty row name is required")).

(** [AddFlavorFormat] *)
Definition AddFlavorFormat (input : Reader) (urlVars : Vars) (tableName : string)
    : AddRowWDMP * error :=
  let wdmp := mkAddRowWDMP CommandAddRow "" nilRow in
  let '(table, exists_) := GetFromURLPath tableName urlVars in
  if exists_ then
    let '(row, err) := decodeRow input in
    match err with
    | None => (mkAddRowWDMP (addCommand wdmp) table row, requiredRow row)
    | Some _ => (mkAddRowWDMP (addCommand wdmp) table row, err)
    end
  else (wdmp, Some (plainErr "tableName is required for this method")).

(** [ReplaceFlavorFormat] *)
Definition ReplaceFlavorFormat (input : Reader) (urlVars : Vars) (tableName : string)
    : ReplaceRowsWDMP * error :=
  let wdmp := mkReplaceRowsWDMP CommandReplaceRows "" nilRows in
  let '(table, exists_) := GetFromURLPath tableName urlVars in
  if exists_ then
    let '(rows, err) := decodeRows input in
    match err with
    | None => (mkReplaceRowsWDMP (replaceCommand wdmp) table rows, requiredRows rows)
    | Some _ => (mkReplaceRowsWDMP (replaceCommand wdmp) table rows, err)
    end
  else (wdmp, Some (plainErr "tableName is required for this method")).

End Conversions.

(** *** Start-up *)

Section Startup.
Context {Keys Custom Resolver JWT : Type}.
Variable NewResolver : Keys -> Err + Resolver.
Variable New : Custom -> JWT.

(** [handler.AuthorizationHandler], as [SetUpPreHandler] fills it in. *)
Record AuthorizationHandler := mkAuthorizationHandler {
  HeaderName : string;
  ForbiddenStatusCode : Z;
  authValidator : list (@Validator Resolver JWT)
}.

(** [SetUpPreHandler] *)
Definition SetUpPreHandler (v : @Viper Keys Custom) : option AuthorizationHandler * error :=
  let '(validator, err) := GetValidator NewResolver New v in
  match err with
  | Some _ => (None, err)
  | None => (Some (mkAuthorizationHandler "Authorization" 403 validator), None)
  end.

(** What the libraries [tr1d1um] calls answer: the errors of
    [server.Initialize], of [v.Unmarshal], of [webhook.NewFactory], of the
    first fetch of the hooks and of [concurrent.Await]; and the
    configuration [viper] holds. *)
Record Environment := mkEnvironment {
  initializeError : error;
  unmarshalError : error;
  configuration : @Viper Keys Custom;
  factoryError : error;
  hooksError : error;
  awaitError : error
}.

(** The steps of the start-up that leave a mark. *)
Inductive Step :=
| Stderr (message : string) (err : Err)   (* [fmt.Fprintf(os.Stderr, ...)] *)
| ConfigurationFileLogged
| HandlerSetUp                            (* [SetUpHandler] *)
| RoutesAdded                             (* [AddRoutes] *)
| HookRoutesAdded                         (* "/hook" and "/hooks" *)
| HooksStarted                            (* [Initialize], [PrepareAndStart] *)
| HookListSet                             (* [SetList] *)
| HookErrorLogged (err : Err)
| ServerPrepared.                         (* [webPA.Prepare] *)

(** [ConfigureWebHooks] *)
Definition ConfigureWebHooks (env : Environment) : Z * list Step :=
  match factoryError env with
  | Some err => (1, [Stderr "Error creating new webHook factory" err])
  | None =>
      (0, [HookRoutesAdded; HooksStarted]
            ++ match hooksError env with
               | None => [HookListSet]
               | Some err => [HookErrorLogged err]
               end)
  end.

(** [tr1d1um]: the exit code and the steps taken. *)
Definition tr1d1um (env : Environment) : Z * list Step :=
  match initializeError env with
  | Some err => (1, [Stderr "Unable to initialize viper" err])
  | None =>
      let t0 := [ConfigurationFileLogged] in
      match unmarshalError env with
      | Some err => (1, t0 ++ [Stderr "Unable to unmarshall config data into struct" err])
      | None =>
          match snd (SetUpPreHandler (configuration env)) with
          | Some err => (1, t0 ++ [Stderr "error setting up prehandler" err])
          | None =>
              let t1 := t0 ++ [HandlerSetUp; RoutesAdded] in
              let '(exitCode, t2) := ConfigureWebHooks env in
              if decide (exitCode ≠ 0) then (exitCode, t1 ++ t2)
              else
                match awaitError env with
                | Some err =>
                    (4, t1 ++ t2 ++ [ServerPrepared; Stderr "Error when starting tr1d1um" err])
                | None => (0, t1 ++ t2 ++ [ServerPrepared])
                end
          end
      end
  end.

Definition isStderr (s : Step) : bool :=
  match s with Stderr _ _ => true | _ => false end.

End Startup.

End Tr1d1um.

(** * Properties *)

(** ** The retry transactor *)

Section RetryFacts.
Import Xhttp.
Context {W : Type} (DefaultLogger : LogLine -> W -> W).

Lemma wrap64_le (z : Z) : 0 <= z -> wrap64 z <= z.
Proof.
  intros Hz. unfold wrap64.
  assert (Hm : (z + 2 ^ 63) mod 2 ^ 64 <= z + 2 ^ 63) by (apply Z.mod_le; lia).
  lia.
Qed.

Lemma wrap64_small (z : Z) : is_int z -> wrap64 z = z.
Proof.
  unfold is_int, min_int, max_int, wrap64. intros Hz.
  rewrite Z.mod_small; lia.
Qed.

Lemma RetryTransactor_decorated {V : Type} (L : LogLine -> V -> V)
    (o : RetryOptions V) (next : Transactor V) :
  1 <= Retries o -> RetryTransactor L o next = retrying L o next.
Proof. intros Hn. unfold RetryTransactor. case_decide; [lia|reflexivity]. Qed.

Lemma recording_eq (next : Transactor W) request (w : W) (journal : list Attempt) :
  recording next request (w, journal)
  = (fst (next request w), (snd (next request w), journal ++ [fst (next request w)])).
Proof. unfold recording. destruct (next request w); reflexivity. Qed.

Lemma shouldRetry_lift (o : RetryOptions W) :
  shouldRetry (liftOptions o) = shouldRetry o.
Proof. reflexivity. Qed.

Lemma logger_lift_journal (o : RetryOptions W) line (w : W) (journal : list Attempt) :
  snd (logger (liftW DefaultLogger) (liftOptions o) line (w, journal)) = journal.
Proof. unfold logger. simpl. destruct (Logger o); reflexivity. Qed.

Lemma counterAdd_lift_journal (o : RetryOptions W) (s : W * list Attempt) :
  snd (counterAdd (liftOptions o) s) = snd s.
Proof. unfold counterAdd. simpl. destruct (Counter o), s; reflexivity. Qed.

(** What the loop adds to the journal: at most [remaining] attempts, every
    one but the last a retryable failure, the last one the result; and the
    loop gives up before [remaining] attempts only on an attempt that is not
    to be retried. *)
Lemma retryLoop_journal (o : RetryOptions W) (next : Transactor W) request :
  forall (remaining : nat) i last w journal,
  exists added,
    snd (snd (retryLoop (liftW DefaultLogger) (liftOptions o) (recording next)
                        request remaining i last (w, journal))) = journal ++ added
    /\ (length added <= remaining)%nat
    /\ (forall a, a ∈ added -> exists w', a = fst (next request w'))
    /\ (forall k a, added !! k = Some a -> retryable (shouldRetry o) a = false ->
                    S k = length added)
    /\ fst (retryLoop (liftW DefaultLogger) (liftOptions o) (recording next)
                      request remaining i last (w, journal))
       = default last (list.last added)
    /\ (length added = remaining
        \/ exists a, list.last added = Some a
                     /\ retryable (shouldRetry o) a = false).
Proof.
  induction remaining as [|remaining IH]; intros i last w journal.
  - exists []. simpl. rewrite app_nil_r. repeat split; auto.
    + intros a Ha. by apply elem_of_nil in Ha.
    + intros k a Hk. discriminate.
  - cbn [retryLoop]. rewrite recording_eq.
    destruct (next request w) as [result w1] eqn:Hnext. cbn [fst snd].
    destruct (snd result) as [err|] eqn:Herr.
    + rewrite shouldRetry_lift.
      destruct (shouldRetry o err) eqn:Hretry.
      * set (s2 := counterAdd _ _).
        assert (Hs2 : snd s2 = journal ++ [result]).
        { unfold s2. rewrite counterAdd_lift_journal, logger_lift_journal. reflexivity. }
        destruct s2 as [w3 j3]. simpl in Hs2. subst j3.
        destruct (IH (i + 1) result w3 (journal ++ [result]))
          as (added & Hj & Hlen & Hfrom & Hstop & Hres & Hend).
        exists (result :: added). rewrite Hj, Hres.
        split; [by rewrite <- app_assoc|].
        split; [simpl; lia|].
        split.
        { intros a [->|Ha]%elem_of_cons; [|by apply Hfrom].
          exists w. by rewrite Hnext. }
        split.
        { intros [|k] a Hk Hna; simpl in Hk.
          - injection Hk as <-. unfold retryable in Hna. rewrite Herr, Hretry in Hna.
            discriminate.
          - simpl. f_equal. eauto. }
        split.
        { destruct added as [|a added]; [reflexivity|].
          rewrite last_cons_cons.
          destruct (list.last (a :: added)) eqn:Hl; [reflexivity|].
          apply last_None in Hl. discriminate. }
        destruct Hend as [Hend|(a & Hlast & Hna)]; [left; simpl; lia|].
        right. exists a. split; [|done].
        destruct added; [discriminate|]. by rewrite last_cons_cons.
      * exists [result]. simpl.
        repeat split; auto; try lia.
        { intros a ->%list_elem_of_singleton. exists w. by rewrite Hnext. }
        { intros [|k] a Hk; [reflexivity|discriminate]. }
        right. exists result. split; [done|].
        unfold retryable. by rewrite Herr, Hretry.
    + exists [result]. simpl.
      repeat split; auto; try lia.
      { intros a ->%list_elem_of_singleton. exists w. by rewrite Hnext. }
      { intros [|k] a Hk; [reflexivity|discriminate]. }
      right. exists result. split; [done|].
      unfold retryable. by rewrite Herr.
Qed.

(** Recording is only an observation: without the journal, the recorded run
    is the run of the plain function. *)
Lemma retryLoop_recording_erase (o : RetryOptions W) (next : Transactor W) request :
  forall (remaining : nat) i last w journal,
    forget (retryLoop (liftW DefaultLogger) (liftOptions o) (recording next)
                      request remaining i last (w, journal))
    = retryLoop DefaultLogger o next request remaining i last w.
Proof.
  induction remaining as [|remaining IH]; intros i last w journal; [reflexivity|].
  cbn [retryLoop]. rewrite recording_eq.
  destruct (next request w) as [result w1]. cbn [fst snd].
  destruct (snd result) as [err|]; [|reflexivity].
  rewrite shouldRetry_lift.
  destruct (shouldRetry o err); [|reflexivity].
  rewrite <- IH with (journal := journal ++ [result]).
  unfold logger, counterAdd. simpl.
  destruct (Logger o), (Counter o); reflexivity.
Qed.

Lemma retrying_recording_erase (o : RetryOptions W) (next : Transactor W) request w :
  forget (retrying (liftW DefaultLogger) (liftOptions o) (recording next) request (w, []))
  = retrying DefaultLogger o next request w.
Proof.
  unfold retrying.
  pose proof (retryLoop_recording_erase o next request
                (Z.to_nat (wrap64 (Retries o + 1))) 0 (None, None) w []) as He.
  simpl Retries.
  destruct (retryLoop (liftW DefaultLogger) _ _ _ _ _ _ _) as [result [w1 journal]].
  unfold forget in He. simpl in He. rewrite <- He.
  destruct (snd result) as [err|]; [|reflexivity].
  unfold logger, forget. simpl. destruct (Logger o); reflexivity.
Qed.

Lemma retrying_journal (o : RetryOptions W) (next : Transactor W) request w :
  let recorded := retrying (liftW DefaultLogger) (liftOptions o) (recording next)
                           request (w, []) in
  exists added,
    snd (snd recorded) = added
    /\ (length added <= Z.to_nat (wrap64 (Retries o + 1)))%nat
    /\ (forall a, a ∈ added -> exists w', a = fst (next request w'))
    /\ (forall k a, added !! k = Some a -> retryable (shouldRetry o) a = false ->
                    S k = length added)
    /\ fst recorded = default (None, None) (list.last added)
    /\ (length added = Z.to_nat (wrap64 (Retries o + 1))
        \/ exists a, list.last added = Some a
                     /\ retryable (shouldRetry o) a = false).
Proof.
  cbv zeta. unfold retrying. simpl Retries.
  destruct (retryLoop_journal o next request
              (Z.to_nat (wrap64 (Retries o + 1))) 0 (None, None) w [])
    as (added & Hj & Hrest).
  destruct (retryLoop (liftW DefaultLogger) _ _ _ _ _ _ _) as [result [w1 journal]].
  simpl in Hj, Hrest. subst journal. exists added.
  destruct (snd result) as [err|]; simpl; [|done].
  rewrite logger_lift_journal. done.
Qed.

(** C3. Bounded retry.  With a retry count of zero or less the wrapped
    function is returned as it is.  With a count [n >= 1] the decorated
    function calls the wrapped one at most [n + 1] times; an attempt whose
    error is nil or not classified retryable is the last one; the response
    and error returned are those of the last attempt; and (whenever [n + 1]
    is a machine integer) it gives up only on such an attempt or after
    [n + 1] attempts.  The default classification retries exactly the errors
    that report themselves temporary.  With [Retries = 2] and a function
    whose every call fails retryably there are exactly 3 attempts and the
    error of the last is returned. *)
Theorem RetryTransactor_attempts (o : RetryOptions W) (next : Transactor W) :
  (Retries o <= 0 -> RetryTransactor DefaultLogger o next = next)
  /\ (ShouldRetry o = None ->
      forall err, shouldRetry o err = true <-> err_temporary err = Some true)
  /\ (1 <= Retries o -> forall request w,
      let recorded :=
        RetryTransactor (liftW DefaultLogger) (liftOptions o) (recording next)
                        request (w, []) in
      let journal := snd (snd recorded) in
      forget recorded = RetryTransactor DefaultLogger o next request w
      /\ Z.of_nat (length journal) <= Retries o + 1
      /\ (forall a, a ∈ journal -> exists w', a = fst (next request w'))
      /\ (forall k a, journal !! k = Some a ->
                      retryable (shouldRetry o) a = false -> S k = length journal)
      /\ fst recorded = default (None, None) (list.last journal)
      /\ (Retries o < max_int ->
          Z.of_nat (length journal) = Retries o + 1
          \/ exists a, list.last journal = Some a
                       /\ retryable (shouldRetry o) a = false)
      /\ (Retries o = 2 ->
          (forall w', retryable (shouldRetry o) (fst (next request w')) = true) ->
          length journal = 3%nat /\ exists err, snd (fst recorded) = Some err)).
Proof.
  split; [|split].
  - intros Hn. unfold RetryTransactor. case_decide; [reflexivity|lia].
  - intros Hdefault err. unfold shouldRetry, DefaultShouldRetry. rewrite Hdefault.
    destruct (err_temporary err) as [[]|]; split; intros; congruence.
  - intros Hn request w. cbv zeta.
    rewrite !RetryTransactor_decorated by exact Hn.
    destruct (retrying_journal o next request w)
      as (journal & Hj & Hlen & Hfrom & Hstop & Hres & Hend).
    cbv zeta in Hj, Hres. rewrite Hj, Hres.
    assert (Hexact : Retries o < max_int ->
              Z.of_nat (length journal) = Retries o + 1
              \/ exists a, list.last journal = Some a
                           /\ retryable (shouldRetry o) a = false).
    { intros Hmax. destruct Hend as [Hend|Hend]; [left|by right].
      rewrite Hend, wrap64_small by (unfold is_int, min_int, max_int in *; lia). lia. }
    split; [apply retrying_recording_erase|].
    split.
    { pose proof (wrap64_le (Retries o + 1)). lia. }
    do 3 (split; [done|]).
    split; [exact Hexact|].
    intros H2 Halways.
    destruct Hexact as [Hfull|(a & Hlast & Hno)];
      [rewrite H2; unfold max_int; lia | |].
    + split; [rewrite H2 in Hfull; lia|].
      destruct (list.last journal) as [a|] eqn:Hlast.
      * assert (Ha : a ∈ journal).
        { apply last_Some in Hlast as [l' Hl']. rewrite Hl'.
          apply elem_of_app. right. by apply list_elem_of_singleton. }
        destruct (Hfrom a Ha) as [w' ->].
        specialize (Halways w'). unfold retryable in Halways. simpl.
        destruct (snd (fst (next request w'))); [eauto|discriminate].
      * apply last_None in Hlast. rewrite Hlast, H2 in Hfull. simpl in Hfull. lia.
    + assert (Ha : a ∈ journal).
      { apply last_Some in Hlast as [l' Hl']. rewrite Hl'.
          apply elem_of_app. right. by apply list_elem_of_singleton. }
      destruct (Hfrom a Ha) as [w' ->]. rewrite Halways in Hno. discriminate.
Qed.

End RetryFacts.

(** The unreachable server of [Sample] is tried three times under
    [Retries = 2], and the caller gets its error. *)
Lemma RetryTransactor_attempts_witness :
  let recorded :=
    Xhttp.RetryTransactor (Xhttp.liftW Sample.silent) (Xhttp.liftOptions Sample.twoRetries)
                          (Xhttp.recording Sample.unreachable) Sample.get (0%nat, []) in
  length (snd (snd recorded)) = 3%nat /\ exists err, snd (fst recorded) = Some err.
Proof.
  destruct (RetryTransactor_attempts Sample.silent Sample.twoRetries Sample.unreachable)
    as (_ & _ & Hretry).
  assert (Hn : 1 <= Xhttp.Retries Sample.twoRetries) by (simpl; lia).
  destruct (Hretry Hn Sample.get 0%nat) as (_ & _ & _ & _ & _ & _ & Hthree).
  apply Hthree; [reflexivity|intros w'; reflexivity].
Defined.

(** ** The manager *)

Section ManagerFacts.
Import Device.
Context `{Wrp}.

(** C10. A request whose context carries no device identifier is answered
    with an HTTP 500 carrying [ErrorMissingDeviceNameContext], and that error
    is returned: the websocket upgrade is not attempted, the registry is left
    as it was, no event is dispatched and no pump is started. *)
Theorem Connect_missing_device_name (request : ConnectRequest) (addr : ptr)
    (upgraded : Err + string) (pingerError : error) (r : registry) :
  contextID request = None ->
  let '(result, r', trace) := manager_Connect request addr upgraded pingerError r in
  result = inl ErrorMissingDeviceNameContext
  /\ WriteError 500 ErrorMissingDeviceNameContext ∈ trace
  /\ List.filter isUpgrade trace = []
  /\ r' = r
  /\ events trace = []
  /\ started trace = [].
Proof.
  intros Hid. unfold manager_Connect. rewrite Hid. simpl.
  repeat split; try reflexivity.
  apply list_elem_of_In. simpl. auto.
Qed.

Lemma events_app (t1 t2 : list Action) : events (t1 ++ t2) = events t1 ++ events t2.
Proof. unfold events. apply flat_map_app. Qed.

Lemma started_app (t1 t2 : list Action) : started (t1 ++ t2) = started t1 ++ started t2.
Proof. unfold started. apply flat_map_app. Qed.

(** The log lines about the convey header. *)
Lemma convey_log_quiet (conveyError : error) :
  let t :=
    match conveyError with
    | None => [Log DebugLevel "convey" None]
    | Some err =>
        if decide (err ≠ ErrMissingHeader)
        then [Log ErrorLevel "badly formatted convey data" (Some err)]
        else []
    end in
  events t = [] /\ started t = [].
Proof.
  destruct conveyError as [err|]; simpl; [|done].
  case_decide; done.
Qed.

Lemma registry_add_failure (deviceID : ID) (d : ptr) (r : registry) :
  (limit r <= size (data r))%nat \/ is_Some (data r !! deviceID) ->
  fst (registry_add deviceID d r) = r
  /\ (snd (registry_add deviceID d r) = Some ErrorMaxDevicesExceeded
      \/ snd (registry_add deviceID d r) = Some ErrorDuplicateDevice).
Proof.
  intros Hfail. unfold registry_add.
  case_decide as Hfull; [split; auto|].
  destruct Hfail as [Hcap|[d' Hd']]; [lia|].
  rewrite Hd'. split; auto.
Qed.

(** C4. When the websocket upgrade fails, [Connect] returns the error of
    the upgrade and the registry is untouched.  When registration fails, the
    hub being full or the identifier being taken, [Connect] closes the
    connection and returns the registry's error; the registry is as it was,
    no connect event is dispatched and no pump is started. *)
Theorem Connect_failure_leaves_no_trace (request : ConnectRequest) (deviceID : ID)
    (addr : ptr) (upgraded : Err + string) (pingerError : error) (r : registry) :
  contextID request = Some deviceID ->
  let '(result, r', trace) := manager_Connect request addr upgraded pingerError r in
  (forall err, upgraded = inl err ->
     result = inl err /\ r' = r /\ events trace = [] /\ started trace = [])
  /\ (forall localAddress, upgraded = inr localAddress -> pingerError = None ->
      (limit r <= size (data r))%nat \/ is_Some (data r !! deviceID) ->
      (result = inl ErrorMaxDevicesExceeded \/ result = inl ErrorDuplicateDevice)
      /\ ConnClose ∈ trace
      /\ r' = r /\ events trace = [] /\ started trace = []).
Proof.
  intros Hid. unfold manager_Connect. rewrite Hid.
  pose proof (convey_log_quiet (conveyError request)) as [Hev Hst]. cbv zeta in Hev, Hst.
  destruct upgraded as [err|localAddress].
  - split; [|intros; discriminate].
    intros err' [= <-]. rewrite !events_app, !started_app, Hev, Hst. done.
  - destruct pingerError as [pingErr|]; [split; intros; discriminate|].
    cbn [id self newDevice].
    destruct (registry_add deviceID addr r) as [r1 addError] eqn:Hadd.
    destruct addError as [addErr|];
      (split; [intros; discriminate|]); intros ? _ _ Hfail;
      destruct (registry_add_failure deviceID addr r Hfail) as [Hsame Herr];
      rewrite Hadd in Hsame, Herr; simpl in Hsame, Herr; subst r1;
      [|destruct Herr; discriminate].
    assert (Hclose : forall t err0,
              ConnClose ∈ t ++ [Log ErrorLevel "unable to register device" (Some err0);
                                ConnClose]).
    { intros. apply elem_of_app. right. apply list_elem_of_In. simpl. auto. }
    rewrite !events_app, !started_app, Hev, Hst.
    split; [destruct Herr as [[= ->]|[= ->]]; auto|].
    split; [|done].
    rewrite !app_assoc. apply Hclose.
Qed.

(** C5. [Route] returns the error of resolving the destination when that
    fails; returns [ErrorDeviceNotFound] at once, leaving registry and devices
    as they are, when no device is registered under the destination; and
    otherwise is the send operation of the device found.  It never changes the
    registry. *)
Theorem Route_cases {W : Type}
    (Send : ptr -> Request -> W -> (option Response * error) * W)
    (request : Request) (r : registry) (w : W) :
  let '(result, r', w') := manager_Route Send request r w in
  r' = r
  /\ (forall err, RequestID request = inl err ->
        result = (None, Some err) /\ w' = w)
  /\ (forall destination, RequestID request = inr destination ->
        registry_get destination r = None ->
        result = (None, Some ErrorDeviceNotFound) /\ w' = w)
  /\ (forall destination d, RequestID request = inr destination ->
        registry_get destination r = Some d ->
        (result, w') = Send d request w).
Proof.
  unfold manager_Route.
  destruct (RequestID request) as [err|destination].
  - repeat split; intros; congruence.
  - destruct (registry_get destination r) as [d|] eqn:Hget.
    + destruct (Send d request w) as [result w1] eqn:Hsend.
      repeat split; intros; try congruence.
    + repeat split; intros; congruence.
Qed.

End ManagerFacts.

(** A request without a device identifier in its context. *)
Lemma Connect_missing_device_name_witness :
  fst (fst (@Device.manager_Connect Sample.toy (Device.mkConnectRequest None None) 2%nat
              (inr "10.0.0.1:8080"%string) None Sample.oneDevice))
  = inl Device.ErrorMissingDeviceNameContext.
Proof.
  pose proof (@Connect_missing_device_name Sample.toy
                (Device.mkConnectRequest None None) 2%nat
                (inr "10.0.0.1:8080"%string) None Sample.oneDevice eq_refl) as Hc.
  destruct (Device.manager_Connect _ _ _ _ _) as [[result r'] trace].
  exact (proj1 Hc).
Defined.

(** A second connection for "dev-1", which is registered already. *)
Lemma Connect_failure_leaves_no_trace_witness :
  let '(result, r', trace) :=
    @Device.manager_Connect Sample.toy
       (Device.mkConnectRequest (Some "dev-1"%string) None) 2%nat
       (inr "10.0.0.1:8080"%string) None Sample.oneDevice in
  r' = Sample.oneDevice /\ Device.events trace = [] /\ Device.started trace = [].
Proof.
  pose proof (@Connect_failure_leaves_no_trace Sample.toy
                (Device.mkConnectRequest (Some "dev-1"%string) None) "dev-1" 2%nat
                (inr "10.0.0.1:8080"%string) None Sample.oneDevice eq_refl) as Hc.
  destruct (Device.manager_Connect _ _ _ _ _) as [[result r'] trace].
  destruct Hc as [_ Hc].
  destruct (Hc "10.0.0.1:8080"%string eq_refl eq_refl) as (_ & _ & Hreg);
    [|exact Hreg].
  right. exists 1%nat. reflexivity.
Defined.

(** A request for "dev-2", which is not connected, is refused with
    [ErrorDeviceNotFound] and the registry still holds its one device. *)
Lemma Route_cases_witness :
  @Device.manager_Route Sample.toy unit Sample.noSend Sample.toDev2 Sample.oneDevice tt
  = ((None, Some Device.ErrorDeviceNotFound), Sample.oneDevice, tt).
Proof.
  pose proof (@Route_cases Sample.toy unit Sample.noSend Sample.toDev2
                Sample.oneDevice tt) as Hr.
  destruct (Device.manager_Route _ _ _ _) as [[result r'] w'].
  destruct Hr as (-> & _ & Hnone & _).
  destruct (Hnone "dev-2"%string eq_refl eq_refl) as [-> ->]. reflexivity.
Defined.

(** ** The read pump *)

Section ReadPumpFacts.
Import Device.
Context `{Wrp}.

Lemma setTransactions_same (d : device) : setTransactions (transactions d) d = d.
Proof. by destruct d. Qed.

Lemma setDev_same (h : Hub) : setDev (dev h) h = h.
Proof. by destruct h. Qed.

(** C2, as the code has it.  A binary frame that decodes gives rise to
    exactly one event, carrying the decoded message, the Msgpack format and
    the frame's bytes: a message-received event when the message is not part
    of a transaction; a transaction-complete event when it is and its key is
    open, which closes the key; a transaction-broken event carrying the
    error when it is and its key is not open (never opened, or completed
    before). *)
Theorem readFrame_dispatches_one_event (data : bytes) (message : Message) (d : device) :
  decode data = inr message ->
  let '(d', trace) := readFrame BinaryMessage data d in
  let event := mkEvent MessageReceived (self d) (Some message) Msgpack data None in
  (IsTransactionPart message = false -> events trace = [event] /\ d' = d)
  /\ (IsTransactionPart message = true ->
      TransactionKey message ∈ transactions d ->
      events trace = [withType TransactionComplete event]
      /\ d' = setTransactions (transactions d ∖ {[TransactionKey message]}) d)
  /\ (IsTransactionPart message = true ->
      TransactionKey message ∉ transactions d ->
      events trace = [withError (Some ErrorNoSuchTransactionKey)
                                (withType TransactionBroken event)]
      /\ d' = d).
Proof.
  intros Hdecode. unfold readFrame.
  case_decide as Hbinary; [done|]. rewrite Hdecode.
  set (measured := if decide (msgType message = SimpleRequestResponseMessageType)
                   then [RequestResponseAdd] else []).
  assert (Hm : events measured = []) by (unfold measured; case_decide; done).
  destruct (IsTransactionPart message).
  - unfold Complete. case_decide as Hopen.
    + rewrite events_app, Hm. repeat split; intros; done.
    + rewrite events_app, Hm, setTransactions_same. repeat split; intros; done.
  - rewrite events_app, Hm. repeat split; intros; done.
Qed.

(** A frame that is not binary, or that does not decode, leaves one log
    line and nothing else. *)
Lemma readFrame_dropped (messageType : Z) (data : bytes) (d : device) :
  messageType ≠ BinaryMessage \/ (exists err, decode data = inl err) ->
  exists err, readFrame messageType data d
              = (d, [Log ErrorLevel
                         (if decide (messageType ≠ BinaryMessage)
                          then "skipping non-binary frame"
                          else "skipping malformed WRP message") err]).
Proof.
  intros Hbad. unfold readFrame.
  case_decide as Hbinary; [by eexists|].
  destruct Hbad as [Hbad|[err Herr]]; [done|].
  rewrite Herr. by eexists.
Qed.

Lemma readLoop_cons (r : ReadResult) (reads : list ReadResult) closeError (h : Hub) :
  readLoop (r :: reads) closeError h
  = let '(h1, t1, running) := readPump_iter r closeError h in
    if running then
      let '(h2, t2, running') := readLoop reads closeError h1 in
      (h2, t1 ++ t2, running')
    else (h1, t1, false).
Proof. reflexivity. Qed.

Lemma unlogged_app (t1 t2 : list Action) : unlogged (t1 ++ t2) = unlogged t1 ++ unlogged t2.
Proof. unfold unlogged. apply List.filter_app. Qed.

(** The pump is running after an iteration unless the read failed. *)
Lemma readPump_iter_running (r : ReadResult) closeError (h : Hub) :
  snd (readPump_iter r closeError h) = match r with ReadError _ => false | Frame _ _ => true end.
Proof.
  destruct r as [readError|messageType data]; simpl.
  - by destruct (readPump_defer closeError h).
  - by destruct (readFrame messageType data (dev h)).
Qed.

(** C6. A frame that is not binary, or a binary frame that does not decode,
    is not fatal: the iteration that reads it changes nothing (the device
    stays registered, nothing is closed, no event is dispatched) and leaves
    the pump running; the frames before and after it are processed as if it
    had not been there; and the pump stops exactly when a read fails. *)
Theorem readPump_drops_bad_frame (messageType : Z) (data : bytes) :
  messageType ≠ BinaryMessage \/ (exists err, decode data = inl err) ->
  (forall closeError h,
     let '(h', trace, running) := readPump_iter (Frame messageType data) closeError h in
     h' = h /\ unlogged trace = [] /\ running = true)
  /\ (forall before after closeError h,
        let '(h1, t1, running1) :=
          readLoop (before ++ Frame messageType data :: after) closeError h in
        let '(h2, t2, running2) := readLoop (before ++ after) closeError h in
        h1 = h2 /\ unlogged t1 = unlogged t2 /\ running1 = running2)
  /\ (forall reads closeError h,
        snd (readLoop reads closeError h) = false
        <-> exists readError, ReadError readError ∈ reads).
Proof.
  intros Hbad.
  assert (Hiter : forall closeError h,
            exists line, readPump_iter (Frame messageType data) closeError h
                         = (h, [line], true) /\ unlogged [line] = []).
  { intros closeError h. simpl.
    destruct (readFrame_dropped messageType data (dev h) Hbad) as [err ->].
    rewrite setDev_same. by eexists. }
  split; [|split].
  - intros closeError h. destruct (Hiter closeError h) as (line & -> & Hquiet). done.
  - induction before as [|r before IH]; intros after closeError h.
    + simpl app. rewrite readLoop_cons.
      destruct (Hiter closeError h) as (line & -> & Hquiet).
      destruct (readLoop after closeError h) as [[h2 t2] running2].
      rewrite unlogged_app, Hquiet. done.
    + rewrite <- !app_comm_cons, !readLoop_cons.
      destruct (readPump_iter r closeError h) as [[h0 t0] running0].
      destruct running0; [|done].
      specialize (IH after closeError h0).
      destruct (readLoop (before ++ _ :: after) closeError h0) as [[h1 t1] running1].
      destruct (readLoop (before ++ after) closeError h0) as [[h2 t2] running2].
      destruct IH as (-> & Hquiet & ->).
      rewrite !unlogged_app, Hquiet. done.
  - induction reads as [|r reads IH]; intros closeError h.
    + simpl. split; [done|]. intros [readError Hin]. by apply elem_of_nil in Hin.
    + rewrite readLoop_cons.
      pose proof (readPump_iter_running r closeError h) as Hrun.
      destruct (readPump_iter r closeError h) as [[h1 t1] running]. simpl in Hrun.
      subst running. destruct r as [readError|mt frame].
      * simpl. split; [|done]. intros _. exists readError. apply elem_of_cons. by left.
      * specialize (IH closeError h1).
        destruct (readLoop reads closeError h1) as [[h2 t2] running2]. simpl in *.
        rewrite IH. split; intros [readError Hin]; exists readError.
        -- apply elem_of_cons. by right.
        -- apply elem_of_cons in Hin as [Hin|Hin]; [discriminate|done].
Qed.

End ReadPumpFacts.

(** A text frame between two replies: the pump ends up in the same state
    and has dispatched what the two replies alone give. *)
Lemma readPump_drops_bad_frame_witness :
  let good := Device.Frame Device.BinaryMessage Sample.replyFrame in
  let '(h1, t1, running1) :=
    @Device.readLoop Sample.toy [good; Device.Frame Device.TextMessage [x68; x69]; good]
                     None (Sample.hub1 []) in
  let '(h2, t2, running2) :=
    @Device.readLoop Sample.toy [good; good] None (Sample.hub1 []) in
  h1 = h2 /\ Device.unlogged t1 = Device.unlogged t2 /\ running1 = running2.
Proof.
  cbv zeta.
  assert (Hbad : Device.TextMessage ≠ Device.BinaryMessage
                 \/ (exists err, @Device.decode Sample.toy [x68; x69] = inl err))
    by (left; discriminate).
  destruct (@readPump_drops_bad_frame Sample.toy Device.TextMessage [x68; x69] Hbad)
    as (_ & Hskip & _).
  exact (Hskip [Device.Frame Device.BinaryMessage Sample.replyFrame]
               [Device.Frame Device.BinaryMessage Sample.replyFrame]
               None (Sample.hub1 [])).
Defined.

(** The reply to transaction "A" arrives twice: the first completes the
    transaction, the second finds it closed. *)
Lemma readFrame_dispatches_one_event_witness :
  let d := Sample.dev1 [] in
  let event := Device.mkEvent Device.MessageReceived 1%nat (Some Sample.reply)
                              Device.Msgpack Sample.replyFrame None in
  let '(d1, t1) := @Device.readFrame Sample.toy Device.BinaryMessage Sample.replyFrame d in
  let '(d2, t2) := @Device.readFrame Sample.toy Device.BinaryMessage Sample.replyFrame d1 in
  Device.events t1 = [Device.withType Device.TransactionComplete event]
  /\ Device.events t2 = [Device.withError (Some Device.ErrorNoSuchTransactionKey)
                           (Device.withType Device.TransactionBroken event)].
Proof.
  cbv zeta.
  pose proof (@readFrame_dispatches_one_event Sample.toy Sample.replyFrame Sample.reply
                (Sample.dev1 []) eq_refl) as H1.
  destruct (Device.readFrame _ _ (Sample.dev1 [])) as [d1 t1].
  destruct H1 as (_ & H1 & _).
  destruct (H1 eq_refl) as [Ht1 ->]; [vm_compute; reflexivity|].
  pose proof (@readFrame_dispatches_one_event Sample.toy Sample.replyFrame Sample.reply
                (Device.setTransactions
                   (Device.transactions (Sample.dev1 [])
                      ∖ {[@Device.TransactionKey Sample.toy Sample.reply]})
                   (Sample.dev1 []))
                eq_refl) as H2.
  destruct (Device.readFrame _ _ _) as [d2 t2].
  destruct H2 as (_ & _ & H2).
  destruct (H2 eq_refl) as [Ht2 _]; [vm_compute; discriminate|].
  split; [exact Ht1|exact Ht2].
Defined.

(** C2, as the specification has it, fails: the frame carrying the reply to
    the open transaction "A" decodes, and no message-received event is
    dispatched for it; the transaction-complete event is the only one. *)
Lemma readFrame_reply_without_message_received :
  Sample.toyDecode Sample.replyFrame = inr Sample.reply
  /\ Device.eventsOfType Device.MessageReceived
       (snd (@Device.readFrame Sample.toy Device.BinaryMessage Sample.replyFrame
                               (Sample.dev1 []))) = []
  /\ Device.eventsOfType Device.TransactionComplete
       (snd (@Device.readFrame Sample.toy Device.BinaryMessage Sample.replyFrame
                               (Sample.dev1 [])))
     = [Device.mkEvent Device.TransactionComplete 1%nat (Some Sample.reply)
                       Device.Msgpack Sample.replyFrame None].
Proof. vm_compute. repeat split. Qed.

(** ** The write pump and the teardown *)

Section WritePumpFacts.
Import Device.
Context `{Wrp}.

Lemma writes_app (t1 t2 : list Action) : writes (t1 ++ t2) = writes t1 ++ writes t2.
Proof. unfold writes. apply flat_map_app. Qed.

(** [remove] deletes the entry and touches nothing of the device but its
    shutdown signal. *)
Lemma remove_spec (deviceID : ID) (h : Hub) :
  let h' := fst (remove deviceID h) in
  devices h' = mkRegistry (limit (devices h)) (delete deviceID (data (devices h)))
  /\ closeOnce h' = closeOnce h
  /\ self (dev h') = self (dev h)
  /\ id (dev h') = id (dev h)
  /\ messages (dev h') = messages (dev h)
  /\ transactions (dev h') = transactions (dev h)
  /\ (shutdown (dev h) = true -> shutdown (dev h') = true).
Proof.
  unfold remove, registry_remove. simpl.
  destruct (data (devices h) !! deviceID) as [d|]; simpl; [|done].
  case_decide; done.
Qed.

Lemma pumpClose_spec (closeError pumpError : error) (h : Hub) :
  let h' := fst (pumpClose closeError pumpError h) in
  devices h' = mkRegistry (limit (devices h)) (delete (id (dev h)) (data (devices h)))
  /\ closeOnce h' = closeOnce h
  /\ self (dev h') = self (dev h)
  /\ id (dev h') = id (dev h)
  /\ messages (dev h') = messages (dev h)
  /\ transactions (dev h') = transactions (dev h).
Proof.
  unfold pumpClose. cbn [fst].
  destruct (remove_spec (id (dev h)) h) as (? & ? & ? & ? & ? & ? & ?). done.
Qed.

Lemma pumpClose_trace (closeError pumpError : error) (h : Hub) :
  events (snd (pumpClose closeError pumpError h))
    = [disconnectEvent (dev h)]
  /\ writes (snd (pumpClose closeError pumpError h)) = [].
Proof. by destruct closeError, pumpError. Qed.

(** After [closeOnce.Do] the guard is spent, whoever ran the teardown. *)
Lemma onceDo_pumpClose_spec (closeError pumpError : error) (h : Hub) :
  let '(h', trace) := onceDo (pumpClose closeError pumpError) h in
  closeOnce h' = true
  /\ self (dev h') = self (dev h)
  /\ id (dev h') = id (dev h)
  /\ messages (dev h') = messages (dev h)
  /\ transactions (dev h') = transactions (dev h)
  /\ writes trace = []
  /\ events trace = if closeOnce h then []
                    else [disconnectEvent (dev h)].
Proof.
  unfold onceDo. destruct (closeOnce h) eqn:Honce; [done|].
  pose proof (pumpClose_spec closeError pumpError (mkHub (devices h) (dev h) true))
    as (_ & ? & ? & ? & ? & ?).
  pose proof (pumpClose_trace closeError pumpError (mkHub (devices h) (dev h) true))
    as [? ?].
  destruct (pumpClose closeError pumpError _) as [h' trace]. done.
Qed.

Lemma failedEvent_self (d d' : device) (e : envelope) (writeError : error) :
  self d = self d' -> failedEvent d e writeError = failedEvent d' e writeError.
Proof. unfold failedEvent. by intros ->. Qed.

(** The drain dispatches one message-failed event per queued envelope, in
    queue order, each with the envelope's message, format and contents, and
    each with the pump's [writeError] as its error. *)
Lemma drain_events (d : device) (writeError : error) (queue : list envelope) :
  events (drain d writeError queue) = map (fun e => failedEvent d e writeError) queue
  /\ writes (drain d writeError queue) = [].
Proof.
  induction queue as [|e queue [IHe IHw]]; [done|].
  unfold drain in *. simpl. rewrite IHe, IHw. done.
Qed.

(** The deferred function of the write pump: the teardown if nobody ran
    it before, then a message-failed event for the envelope in flight, then
    one for every envelope left in the queue, which is empty afterwards. *)
Lemma writePump_defer_spec (writeError : error) (current : option envelope)
    (closeError : error) (h : Hub) :
  let '(h', trace) := writePump_defer writeError current closeError h in
  closeOnce h' = true
  /\ self (dev h') = self (dev h)
  /\ id (dev h') = id (dev h)
  /\ messages (dev h') = []
  /\ writes trace = []
  /\ events trace
     = (if closeOnce h then [] else [disconnectEvent (dev h)])
       ++ match current with
          | Some e => [failedEvent (dev h) e writeError]
          | None => []
          end
       ++ map (fun e => failedEvent (dev h) e writeError) (messages (dev h)).
Proof.
  unfold writePump_defer.
  pose proof (onceDo_pumpClose_spec closeError writeError h) as Honce.
  destruct (onceDo (pumpClose closeError writeError) h) as [h1 closing].
  destruct Honce as (Hguard & Hself & Hid & Hqueue & _ & Hwrites & Hevents).
  destruct (drain_events (dev h1) writeError (messages (dev h1))) as [Hde Hdw].
  repeat split; try done.
  - rewrite !writes_app, Hwrites, Hdw. by destruct current.
  - rewrite !events_app, Hevents, Hde, Hqueue. simpl.
    rewrite app_nil_r. f_equal. f_equal.
    + destruct current; [|done]. simpl. f_equal. by apply failedEvent_self.
    + apply map_ext. intros e. by apply failedEvent_self.
Qed.

Lemma writes_cons (a : Action) (t : list Action) :
  writes (a :: t) = match a with WriteMessage _ frame => frame :: writes t | _ => writes t end.
Proof. by destruct a. Qed.

Lemma events_cons (a : Action) (t : list Action) :
  events (a :: t) = match a with Dispatch e => e :: events t | _ => events t end.
Proof. by destruct a. Qed.

Lemma nonempty_length {A : Type} (l : list A) : l ≠ [] <-> (0 < length l)%nat.
Proof. destruct l; simpl; split; intros; try done; lia. Qed.

Lemma writeLoop_stops (w : Wake) (more : list Wake) closeError (h h' : Hub) trace :
  writePump_iter w closeError h = (h', trace, false) ->
  writeLoop (w :: more) closeError h = (h', trace, false).
Proof. intros Hiter. simpl. by rewrite Hiter. Qed.

(** C9. The write pump takes the envelope at the head of the queue.  If the
    request is in Msgpack and has contents, those bytes are the frame
    written; otherwise the frame is the encoding of the message, and nothing
    is written if encoding fails.  If the write succeeds the sender's channel
    is closed, a message-sent event is dispatched and the pump goes on with
    the rest of the queue.  If encoding or the write fails with [err], [err]
    is sent on the sender's channel, a message-failed event carrying [err] is
    dispatched, and the pump ends: it takes no further envelope, the
    teardown guard is spent, and the envelopes left are reported as failed. *)
Theorem writePump_sends_envelope (e : envelope) (queue : list envelope)
    (writeResult closeError : error) (h : Hub) :
  messages (dev h) = e :: queue ->
  let '(h', trace, running) := writePump_iter (WMessage writeResult) closeError h in
  let req := request e in
  let cached := reqFormat req = Msgpack /\ reqContents req ≠ [] in
  let event := fun t err =>
    mkEvent t (self (dev h)) (Some (reqMessage req)) (reqFormat req) (reqContents req) err in
  let outcome := fun (written : list bytes) (failure : error) =>
    writes trace = written
    /\ match failure with
       | None =>
           running = true
           /\ h' = setDev (setMessages queue (dev h)) h
           /\ ChanClose (complete e) ∈ trace
           /\ events trace = [event MessageSent None]
       | Some err =>
           running = false
           /\ ChanSend (complete e) err ∈ trace
           /\ ChanClose (complete e) ∈ trace
           /\ events trace
              = event MessageFailed (Some err)
                :: (if closeOnce h then []
                    else [disconnectEvent (dev h)])
                ++ event MessageFailed (Some err)
                :: map (fun u => failedEvent (dev h) u (Some err)) queue
           /\ closeOnce h' = true
           /\ messages (dev h') = []
           /\ (forall more,
                 writeLoop (WMessage writeResult :: more) closeError h = (h', trace, false))
       end in
  (cached -> outcome [reqContents req] writeResult)
  /\ (~ cached -> forall encoded, encode (reqMessage req) = inr encoded ->
      outcome [encoded] writeResult)
  /\ (~ cached -> forall err, encode (reqMessage req) = inl err ->
      outcome [] (Some err)).
Proof.
  intros Hqueue.
  destruct (writePump_iter (WMessage writeResult) closeError h)
    as [[h' trace] running] eqn:Hiter.
  cbv zeta.
  pose proof Hiter as Hwhole.
  unfold writePump_iter in Hiter. rewrite Hqueue in Hiter.
  unfold sendEnvelope in Hiter.
  set (h0 := setDev (setMessages queue (dev h)) h) in *.
  assert (Hdefer : forall err,
            let '(h1, t) := writePump_defer (Some err) (Some e) closeError h0 in
            closeOnce h1 = true /\ messages (dev h1) = [] /\ writes t = []
            /\ events t
               = (if closeOnce h then []
                  else [disconnectEvent (dev h)])
                 ++ failedEvent (dev h) e (Some err)
                 :: map (fun u => failedEvent (dev h) u (Some err)) queue).
  { intros err.
    pose proof (writePump_defer_spec (Some err) (Some e) closeError h0) as Hspec.
    destruct (writePump_defer (Some err) (Some e) closeError h0) as [h1 t].
    destruct Hspec as (? & _ & _ & ? & ? & Hev). rewrite Hev.
    repeat split; try done. }
  case_decide as Hcached.
  - (* the caller's bytes are written *)
    assert (Hc : reqFormat (request e) = Msgpack /\ reqContents (request e) ≠ [])
      by (split; [tauto|apply nonempty_length; tauto]).
    split; [intros _|split; intros Hnot; contradiction].
    destruct writeResult as [err|]; cbv beta iota zeta in Hiter.
    + specialize (Hdefer err).
      destruct (writePump_defer (Some err) (Some e) closeError h0) as [h1 t].
      destruct Hdefer as (? & ? & Hw & Hev).
      injection Hiter as <- <- <-.
      rewrite !writes_cons, !events_cons, Hw, Hev.
      repeat split; try done;
        try (intros more; by apply writeLoop_stops);
        apply list_elem_of_In; simpl; auto 6.
    + injection Hiter as <- <- <-.
      repeat split; try done. apply list_elem_of_In; simpl; auto.
  - (* the message is encoded *)
    assert (Hc : ~ (reqFormat (request e) = Msgpack /\ reqContents (request e) ≠ []))
      by (intros [Hf Hne]; apply Hcached; split; [done|by apply nonempty_length]).
    split; [intros Hyes; contradiction|].
    destruct (encode (reqMessage (request e))) as [encodeErr|encoded];
      (split; intros _ ? [= <-]).
    + cbv beta iota zeta in Hiter. specialize (Hdefer encodeErr).
      destruct (writePump_defer (Some encodeErr) (Some e) closeError h0) as [h1 t].
      destruct Hdefer as (? & ? & Hw & Hev).
      injection Hiter as <- <- <-.
      rewrite !writes_cons, !events_cons, Hw, Hev.
      repeat split; try done;
        try (intros more; by apply writeLoop_stops);
        apply list_elem_of_In; simpl; auto 6.
    + destruct writeResult as [err|]; cbv beta iota zeta in Hiter.
      * specialize (Hdefer err).
        destruct (writePump_defer (Some err) (Some e) closeError h0) as [h1 t].
        destruct Hdefer as (? & ? & Hw & Hev).
        injection Hiter as <- <- <-.
        rewrite !writes_cons, !events_cons, Hw, Hev.
        repeat split; try done;
        try (intros more; by apply writeLoop_stops);
        apply list_elem_of_In; simpl; auto 6.
      * injection Hiter as <- <- <-.
        repeat split; try done. apply list_elem_of_In; simpl; auto.
Qed.

End WritePumpFacts.

(** The head of the queue is already in wire format and the write fails:
    its bytes were the frame, and the pump has ended with the guard spent. *)
Lemma writePump_sends_envelope_witness :
  let '(h', trace, running) :=
    @Device.writePump_iter Sample.toy (Device.WMessage (Some Sample.brokenPipe)) None
       (Sample.hub1 [Sample.packedEnvelope; Sample.noticeEnvelope]) in
  Device.writes trace = [Sample.replyFrame]
  /\ running = false
  /\ Device.closeOnce h' = true.
Proof.
  pose proof (@writePump_sends_envelope Sample.toy Sample.packedEnvelope
                [Sample.noticeEnvelope] (Some Sample.brokenPipe) None
                (Sample.hub1 [Sample.packedEnvelope; Sample.noticeEnvelope]) eq_refl) as Hw.
  destruct (Device.writePump_iter _ _ _) as [[h' trace] running].
  destruct Hw as (Hcached & _ & _).
  destruct Hcached as (Hwritten & Hrunning & _ & _ & _ & Hguard & _);
    [split; [reflexivity|discriminate]|].
  done.
Defined.

(** C1, at the input where the code departs from it.  "dev-1" has two
    envelopes queued when the pinger fails with a broken pipe.  The write pump
    ends, the teardown runs, and one message-failed event per queued
    envelope follows, each with the envelope's message, format and contents:
    but the error of both events is the broken pipe of the ping, not nil. *)
Theorem writePump_drain_carries_write_error :
  let '(h', trace, running) :=
    @Device.writePump_iter Sample.toy (Device.WTick (Some Sample.brokenPipe)) None
       (Sample.hub1 [Sample.noticeEnvelope; Sample.packedEnvelope]) in
  running = false
  /\ Device.events trace
     = [@Device.disconnectEvent Sample.toy (Sample.dev1 []);
        Device.mkEvent Device.MessageFailed 1%nat (Some Sample.notice)
                       Device.JSON [] (Some Sample.brokenPipe);
        Device.mkEvent Device.MessageFailed 1%nat (Some Sample.reply)
                       Device.Msgpack Sample.replyFrame (Some Sample.brokenPipe)]
  /\ Device.messages (Device.dev h') = [].
Proof. vm_compute. repeat split. Qed.

(** ** Teardown under every schedule *)

Section TeardownFacts.
Import Device.
Context `{Wrp}.

Lemma teardowns_app (t1 t2 : list Action) :
  teardowns (t1 ++ t2) = teardowns t1 ++ teardowns t2.
Proof. unfold teardowns. apply List.filter_app. Qed.

Lemma teardowns_pumpClose (closeError pumpError : error) (h : Hub) :
  teardowns (snd (pumpClose closeError pumpError h))
  = [pumpCloseLog pumpError; connCloseLog closeError; Dispatch (disconnectEvent (dev h))].
Proof. by destruct closeError, pumpError. Qed.

Lemma teardowns_readFrame (messageType : Z) (data : bytes) (d : device) :
  let '(d', trace) := readFrame messageType data d in
  teardowns trace = [] /\ self d' = self d /\ id d' = id d.
Proof.
  unfold readFrame. case_decide; [done|].
  destruct (decode data) as [err|message]; [done|].
  assert (Hm : teardowns (if decide (msgType message = SimpleRequestResponseMessageType)
                          then [RequestResponseAdd] else []) = [])
    by (case_decide; done).
  destruct (IsTransactionPart message).
  - destruct (Complete _ _) as [pending [e|]]; rewrite teardowns_app, Hm; done.
  - rewrite teardowns_app, Hm. done.
Qed.

Lemma teardowns_drain (d : device) (writeError : error) (queue : list envelope) :
  teardowns (drain d writeError queue) = [].
Proof. induction queue as [|e queue IH]; [done|]. exact IH. Qed.

Lemma teardowns_sendEnvelope (d : device) (e : envelope) (writeResult : error) :
  teardowns (snd (sendEnvelope d e writeResult)) = [].
Proof.
  unfold sendEnvelope. case_decide.
  - by destruct writeResult.
  - destruct (encode _); [done|]. by destruct writeResult.
Qed.

(** What one call of [closeOnce.Do(pumpClose)] does to the guard, the
    registry and the trace. *)
Lemma onceDo_pumpClose_teardown (closeError pumpError : error) (h : Hub) :
  let '(h', trace) := onceDo (pumpClose closeError pumpError) h in
  closeOnce h' = true
  /\ self (dev h') = self (dev h) /\ id (dev h') = id (dev h)
  /\ (shutdown (dev h) = true -> shutdown (dev h') = true)
  /\ (data (devices h) !! id (dev h) = None -> data (devices h') !! id (dev h) = None)
  /\ if closeOnce h then teardowns trace = []
     else teardowns trace
          = [pumpCloseLog pumpError; connCloseLog closeError;
             Dispatch (disconnectEvent (dev h))]
          /\ data (devices h') !! id (dev h) = None.
Proof.
  unfold onceDo. destruct (closeOnce h) eqn:Honce; [done|].
  rewrite (surjective_pairing (pumpClose _ _ _)), teardowns_pumpClose.
  unfold pumpClose. cbn [fst dev].
  destruct (remove_spec (id (dev h)) (mkHub (devices h) (dev h) true))
    as (Hreg & Hguard & Hself & Hid & _ & _ & Hshut).
  cbv zeta in *. simpl in *. rewrite Hreg. simpl.
  rewrite lookup_delete_eq. done.
Qed.

Lemma writePump_defer_teardown (writeError : error) (current : option envelope)
    (closeError : error) (h : Hub) :
  let '(h', trace) := writePump_defer writeError current closeError h in
  closeOnce h' = true
  /\ self (dev h') = self (dev h) /\ id (dev h') = id (dev h)
  /\ (data (devices h) !! id (dev h) = None -> data (devices h') !! id (dev h) = None)
  /\ if closeOnce h then teardowns trace = []
     else teardowns trace
          = [pumpCloseLog writeError; connCloseLog closeError;
             Dispatch (disconnectEvent (dev h))]
          /\ data (devices h') !! id (dev h) = None.
Proof.
  unfold writePump_defer.
  pose proof (onceDo_pumpClose_teardown closeError writeError h) as Honce.
  destruct (onceDo (pumpClose closeError writeError) h) as [h1 closing].
  destruct Honce as (Hguard & Hself & Hid & _ & Hgone & Htrace).
  assert (Hrest : forall t, teardowns ([TickerStop; TimerStop] ++ t
                     ++ match current with
                        | Some e => [Dispatch (failedEvent (dev h1) e writeError)]
                        | None => []
                        end
                     ++ drain (dev h1) writeError (messages (dev h1))
                     ++ [Log DebugLevel "writePump exiting" None]) = teardowns t).
  { intros t. rewrite !teardowns_app, teardowns_drain.
    destruct current; simpl; by rewrite app_nil_r. }
  rewrite Hrest. simpl. done.
Qed.

Lemma readPump_iter_teardown (r : ReadResult) (closeError : error) (h : Hub) :
  let '(h', trace, running) := readPump_iter r closeError h in
  self (dev h') = self (dev h) /\ id (dev h') = id (dev h)
  /\ (data (devices h) !! id (dev h) = None -> data (devices h') !! id (dev h) = None)
  /\ if running then closeOnce h' = closeOnce h /\ teardowns trace = []
     else closeOnce h' = true
          /\ if closeOnce h then teardowns trace = []
             else (exists pumpError,
                     teardowns trace
                     = [pumpCloseLog pumpError; connCloseLog closeError;
                        Dispatch (disconnectEvent (dev h))])
                  /\ data (devices h') !! id (dev h) = None.
Proof.
  destruct r as [readError|messageType data]; simpl.
  - unfold readPump_defer.
    pose proof (onceDo_pumpClose_teardown closeError None h) as Honce.
    destruct (onceDo (pumpClose closeError None) h) as [h1 closing].
    destruct Honce as (Hguard & Hself & Hid & _ & Hgone & Htrace).
    change (Log ErrorLevel "read error" (Some readError)
              :: closing ++ [Log DebugLevel "readPump exiting" None])
      with ([Log ErrorLevel "read error" (Some readError)]
              ++ closing ++ [Log DebugLevel "readPump exiting" None]).
    rewrite !teardowns_app. simpl. rewrite app_nil_r.
    destruct (closeOnce h); [done|].
    destruct Htrace as [-> ?]. repeat split; try done. by exists None.
  - pose proof (teardowns_readFrame messageType data (dev h)) as Hframe.
    destruct (readFrame messageType data (dev h)) as [d' trace].
    destruct Hframe as (? & ? & ?). done.
Qed.

Lemma writePump_iter_teardown (w : Wake) (closeError : error) (h : Hub) :
  let '(h', trace, running) := writePump_iter w closeError h in
  self (dev h') = self (dev h) /\ id (dev h') = id (dev h)
  /\ (data (devices h) !! id (dev h) = None -> data (devices h') !! id (dev h) = None)
  /\ if running then closeOnce h' = closeOnce h /\ teardowns trace = []
     else closeOnce h' = true
          /\ if closeOnce h then teardowns trace = []
             else (exists pumpError,
                     teardowns trace
                     = [pumpCloseLog pumpError; connCloseLog closeError;
                        Dispatch (disconnectEvent (dev h))])
                  /\ data (devices h') !! id (dev h) = None.
Proof.
  destruct w as [closeResult|writeResult|pingResult]; simpl.
  - destruct (shutdown (dev h)); [|done].
    pose proof (writePump_defer_teardown closeResult None closeError h) as Hdefer.
    destruct (writePump_defer closeResult None closeError h) as [h1 t].
    destruct Hdefer as (? & ? & ? & ? & Htrace).
    change (Log DebugLevel "explicit shutdown" None :: ConnClose :: t)
      with ([Log DebugLevel "explicit shutdown" None; ConnClose] ++ t).
    rewrite teardowns_app. simpl.
    destruct (closeOnce h); [done|].
    destruct Htrace as [-> ?]. repeat split; try done. by exists closeResult.
  - destruct (messages (dev h)) as [|e queue] eqn:Hqueue; [done|].
    pose proof (teardowns_sendEnvelope (dev h) e writeResult) as Hsend.
    destruct (sendEnvelope (dev h) e writeResult) as [[err|] t0]; simpl in Hsend;
      [|by destruct h as [? []]].
    set (h0 := setDev (setMessages queue (dev h)) h).
    pose proof (writePump_defer_teardown (Some err) (Some e) closeError h0) as Hdefer.
    destruct (writePump_defer (Some err) (Some e) closeError h0) as [h1 t].
    destruct Hdefer as (? & ? & ? & ? & Htrace).
    rewrite teardowns_app, Hsend. simpl.
    change (closeOnce h0) with (closeOnce h) in Htrace.
    destruct (closeOnce h); [done|].
    destruct Htrace as [-> ?]. repeat split; try done. by exists (Some err).
  - destruct pingResult as [err|]; [|done].
    pose proof (writePump_defer_teardown (Some err) None closeError h) as Hdefer.
    destruct (writePump_defer (Some err) None closeError h) as [h1 t].
    destruct Hdefer as (? & ? & ? & ? & Htrace).
    change (Ping :: t) with ([Ping] ++ t). rewrite teardowns_app. simpl.
    destruct (closeOnce h); [done|].
    destruct Htrace as [-> ?]. repeat split; try done. by exists (Some err).
Qed.

(** One step of a session in which the guard is spent exactly when a pump
    has ended: the step keeps it so, never restores the guard or the
    registration, and runs the teardown only if it spends the guard. *)
Lemma step_teardown (s : Stimulus) (c : Session) :
  closeOnce (hub c) = negb (reading c && writing c) ->
  let '(c', trace) := step s c in
  closeOnce (hub c') = negb (reading c' && writing c')
  /\ self (dev (hub c')) = self (dev (hub c))
  /\ id (dev (hub c')) = id (dev (hub c))
  /\ (data (devices (hub c)) !! id (dev (hub c)) = None ->
      data (devices (hub c')) !! id (dev (hub c)) = None)
  /\ if closeOnce (hub c) then closeOnce (hub c') = true /\ teardowns trace = []
     else if closeOnce (hub c')
          then (exists closeError pumpError,
                  teardowns trace
                  = [pumpCloseLog pumpError; connCloseLog closeError;
                     Dispatch (disconnectEvent (dev (hub c)))])
               /\ data (devices (hub c')) !! id (dev (hub c)) = None
          else teardowns trace = [].
Proof.
  intros Hguard. destruct c as [h rd wr]. simpl in Hguard.
  destruct s as [r closeError|w closeError|deviceID|e]; simpl.
  - destruct rd; simpl in *; [|by rewrite Hguard].
    pose proof (readPump_iter_teardown r closeError h) as Hiter.
    destruct (readPump_iter r closeError h) as [[h' trace] running]. simpl.
    destruct Hiter as (? & ? & ? & Hrun).
    destruct running; simpl.
    + destruct Hrun as [Hsame ->]. rewrite Hsame, Hguard.
      repeat split; try done. by destruct wr.
    + destruct Hrun as [-> Hrun]. repeat split; try done.
      destruct (closeOnce h); [done|].
      destruct Hrun as [[pumpError ->] ?]. split; [|done]. by exists closeError, pumpError.
  - destruct wr; simpl in *; [|by rewrite Hguard, andb_false_r].
    pose proof (writePump_iter_teardown w closeError h) as Hiter.
    destruct (writePump_iter w closeError h) as [[h' trace] running]. simpl.
    destruct Hiter as (? & ? & ? & Hrun).
    destruct running; simpl.
    + destruct Hrun as [Hsame ->]. rewrite Hsame, Hguard.
      repeat split; try done. by destruct rd.
    + destruct Hrun as [-> Hrun]. rewrite andb_false_r. repeat split; try done.
      destruct (closeOnce h); [done|].
      destruct Hrun as [[pumpError ->] ?]. split; [|done]. by exists closeError, pumpError.
  - unfold manager_Disconnect.
    destruct (remove_spec deviceID h) as (Hreg & Hsame & ? & ? & _).
    cbv zeta in *. rewrite Hsame, Hreg, Hguard. simpl.
    repeat split; try done.
    + intros Hgone. destruct (decide (deviceID = id (dev h))) as [->|Hne].
      * apply lookup_delete_eq.
      * by rewrite lookup_delete_ne.
    + by destruct (negb (rd && wr)).
  - rewrite Hguard. repeat split; try done. by destruct (negb (rd && wr)).
Qed.

Lemma run_teardown (schedule : list Stimulus) :
  forall c : Session,
  closeOnce (hub c) = negb (reading c && writing c) ->
  let '(c', trace) := run schedule c in
  closeOnce (hub c') = negb (reading c' && writing c')
  /\ self (dev (hub c')) = self (dev (hub c))
  /\ id (dev (hub c')) = id (dev (hub c))
  /\ (data (devices (hub c)) !! id (dev (hub c)) = None ->
      data (devices (hub c')) !! id (dev (hub c)) = None)
  /\ if closeOnce (hub c) then closeOnce (hub c') = true /\ teardowns trace = []
     else if closeOnce (hub c')
          then (exists closeError pumpError,
                  teardowns trace
                  = [pumpCloseLog pumpError; connCloseLog closeError;
                     Dispatch (disconnectEvent (dev (hub c)))])
               /\ data (devices (hub c')) !! id (dev (hub c)) = None
          else teardowns trace = [].
Proof.
  induction schedule as [|s schedule IH]; intros c Hguard.
  - simpl. repeat split; try done. by destruct (closeOnce (hub c)).
  - cbn [run].
    pose proof (step_teardown s c Hguard) as Hstep.
    destruct (step s c) as [c1 t1].
    destruct Hstep as (Hguard1 & Hself1 & Hid1 & Hgone1 & Hone).
    specialize (IH c1 Hguard1).
    destruct (run schedule c1) as [c2 t2].
    destruct IH as (Hguard2 & Hself2 & Hid2 & Hgone2 & Htwo).
    rewrite Hid1 in Hgone2.
    rewrite teardowns_app.
    split; [done|]. split; [congruence|]. split; [congruence|].
    split; [auto|].
    destruct (closeOnce (hub c)).
    + destruct Hone as [Hspent ->]. rewrite Hspent in Htwo. done.
    + destruct (closeOnce (hub c1)).
      * destruct Hone as [Hdone Hgone]. destruct Htwo as [-> ->].
        rewrite app_nil_r. auto.
      * rewrite Hone. simpl.
        assert (Hev : disconnectEvent (dev (hub c1)) = disconnectEvent (dev (hub c)))
          by (unfold disconnectEvent; by rewrite Hself1).
        rewrite Hev, Hid1 in Htwo. exact Htwo.
Qed.

(** How an explicit [Disconnect] reaches the teardown: removing the
    device from the registry raises its shutdown signal, and the write pump
    ends when it wakes on that signal. *)
Lemma Disconnect_ends_write_pump (c : Session) (closeResult closeError : error) :
  registry_get (id (dev (hub c))) (devices (hub c)) = Some (self (dev (hub c))) ->
  writing c = true ->
  let c1 := fst (step (Disconnects (id (dev (hub c)))) c) in
  shutdown (dev (hub c1)) = true
  /\ writing (fst (step (Wakes (WShutdown closeResult) closeError) c1)) = false.
Proof.
  intros Hregistered Hwriting. cbv zeta. simpl.
  unfold manager_Disconnect, remove, registry_remove, registry_get in *.
  rewrite Hregistered, Hwriting. simpl. rewrite decide_True by done. simpl.
  split; [done|].
  destruct (writePump_defer _ _ _ _). done.
Qed.

Lemma eventsOfType_teardowns (trace : list Action) :
  eventsOfType Disconnect (teardowns trace) = eventsOfType Disconnect trace.
Proof.
  unfold eventsOfType, teardowns.
  induction trace as [|a trace IH]; [done|].
  rewrite (events_cons a trace). cbn [List.filter].
  destruct (teardownAction a) eqn:Hact.
  - rewrite events_cons. destruct a; try exact IH.
    rewrite !filter_cons, IH. done.
  - destruct a; try exact IH.
    simpl in Hact. apply bool_decide_eq_false in Hact.
    rewrite filter_cons, decide_False by done. exact IH.
Qed.

Lemma sendEnvelope_write_fails (d : device) (e : envelope) (err : Err) :
  exists err', fst (sendEnvelope d e (Some err)) = Some err'.
Proof.
  unfold sendEnvelope. case_decide; [by eexists|].
  destruct (encode _); by eexists.
Qed.

(** C7, as the code has it.  Under every schedule, once a pump of the
    connection has ended exactly one disconnect event has been dispatched
    for the device, and none before; that event carries no error, whatever
    ended the pump.  A failed read and a failed ping end their pump, and so
    does a failed write of a queued envelope. *)
Theorem disconnect_event_once_without_error (schedule : list Stimulus)
    (r : registry) (d : device) :
  let '(c, trace) := run schedule (connected r d) in
  eventsOfType Disconnect trace
  = (if reading c && writing c then [] else [disconnectEvent d])
  /\ evDevice (disconnectEvent d) = self d
  /\ evError (disconnectEvent d) = None
  /\ (forall s, fatal s = true ->
        let c' := fst (step s c) in reading c' && writing c' = false)
  /\ (forall err closeError, messages (dev (hub c)) ≠ [] ->
        writing (fst (step (Wakes (WMessage (Some err)) closeError) c)) = false).
Proof.
  pose proof (run_teardown schedule (connected r d) eq_refl) as Hrun.
  destruct (run schedule (connected r d)) as [c trace].
  destruct Hrun as (Hguard & _ & _ & _ & Hrun). simpl in Hrun.
  split; [|split; [done|split; [done|split]]].
  - rewrite <- eventsOfType_teardowns.
    destruct (reading c && writing c); simpl in Hguard; rewrite Hguard in Hrun.
    + by rewrite Hrun.
    + destruct Hrun as [(closeError & pumpError & ->) _].
      by destruct closeError, pumpError.
  - intros s Hfatal. destruct s as [[readError|]? |[| |[pingError|]]?| |]; try done; simpl.
    + destruct (reading c) eqn:Hreading; [|simpl; by rewrite Hreading].
      destruct (readPump_defer _ _). done.
    + destruct (writing c) eqn:Hwriting; [|simpl; rewrite Hwriting; apply andb_false_r].
      destruct (writePump_defer _ _ _ _). simpl. apply andb_false_r.
  - intros err closeError Hqueue. simpl.
    destruct (writing c) eqn:Hwriting; [|done].
    destruct (messages (dev (hub c))) as [|e queue]; [done|].
    destruct (sendEnvelope_write_fails (dev (hub c)) e err) as [err' Hfail].
    destruct (sendEnvelope (dev (hub c)) e (Some err)) as [writeError t0].
    simpl in Hfail. subst writeError.
    destruct (writePump_defer _ _ _ _). done.
Qed.

End TeardownFacts.

(** C7, as the specification has it, fails: the ping of a freshly connected
    "dev-1" fails with a broken pipe; the write pump ends and the one
    disconnect event dispatched has no error attached. *)
Lemma disconnect_event_lacks_cause :
  let '(c, trace) :=
    @Device.run Sample.toy
       [Device.Wakes (Device.WTick (Some Sample.brokenPipe)) None]
       (Device.connected Sample.oneDevice (Sample.dev1 [])) in
  Device.writing c = false
  /\ Device.eventsOfType Device.Disconnect trace
     = [Device.mkEvent Device.Disconnect 1%nat None (@Device.zeroFormat Sample.toy) []
                       None]
  /\ ~ (exists e, e ∈ Device.events trace
                  /\ Device.evType e = Device.Disconnect
                  /\ Device.evError e = Some Sample.brokenPipe).
Proof.
  vm_compute. repeat split.
  intros (e & Hin & _ & Herr).
  apply list_elem_of_In in Hin. simpl in Hin.
  destruct Hin as [<-|[]]. discriminate.
Qed.

(** The ping of "dev-1" fails: the device is torn down with one disconnect
    event; and a read failing afterwards finds a pump already ended. *)
Lemma disconnect_event_once_without_error_witness :
  let '(c, trace) :=
    @Device.run Sample.toy [Device.Wakes (Device.WTick (Some Sample.brokenPipe)) None]
       (Device.connected Sample.oneDevice (Sample.dev1 [Sample.noticeEnvelope])) in
  Device.eventsOfType Device.Disconnect trace
  = [@Device.disconnectEvent Sample.toy (Sample.dev1 [Sample.noticeEnvelope])]
  /\ (let c' := fst (@Device.step Sample.toy
                       (Device.Reads (Device.ReadError Sample.brokenPipe) None) c) in
      Device.reading c' && Device.writing c' = false).
Proof.
  pose proof (@disconnect_event_once_without_error Sample.toy
                [Device.Wakes (Device.WTick (Some Sample.brokenPipe)) None]
                Sample.oneDevice (Sample.dev1 [Sample.noticeEnvelope])) as Hone.
  destruct (Device.run _ _) as [c trace] eqn:Hrun.
  assert (Hended : Device.reading c && Device.writing c = false)
    by (vm_compute in Hrun; by injection Hrun as <- _).
  rewrite Hended in Hone.
  destruct Hone as (Hevents & _ & _ & Hfatal & _).
  split; [exact Hevents|].
  apply Hfatal. reflexivity.
Defined.

(** ** Further observations *)

(** Every listener hears every dispatched event, in the order of dispatch. *)
Lemma notifications_events (listeners : list Device.Listener) (trace : list Device.Action) :
  Device.notifications listeners trace
  = flat_map (Device.dispatch listeners) (Device.events trace).
Proof.
  unfold Device.notifications, Device.events.
  induction trace as [|a trace IH]; [done|].
  destruct a; simpl; try exact IH.
  by f_equal.
Qed.

(** The error of a failed read reaches the log of the read itself, but not
    [pumpClose]: the teardown the read pump runs logs a plain "pump close". *)
Lemma readPump_teardown_logs_no_error :
  Device.teardowns
    (snd (fst (@Device.readPump_iter Sample.toy (Device.ReadError Sample.brokenPipe) None
                 (Sample.hub1 []))))
  = [Device.Log Device.DebugLevel "pump close" None;
     Device.Log Device.DebugLevel "Closed device connection" None;
     Device.Dispatch (@Device.disconnectEvent Sample.toy (Sample.dev1 []))].
Proof. vm_compute. reflexivity. Qed.

(** At the largest [int] the attempt count [Retries + 1] wraps to a
    negative number: the loop body never runs, the wrapped function is not
    called and the caller gets neither a response nor an error.  This is the
    one retry count for which the decorated function gives up before a
    final attempt. *)
Lemma RetryTransactor_largest_int :
  Xhttp.RetryTransactor Sample.silent (Xhttp.mkOptions None max_int None None)
                        Sample.unreachable Sample.get 0%nat
  = ((None, None), 0%nat).
Proof. vm_compute. reflexivity. Qed.

(** * Further properties *)

(** ** The retry transactor *)

Section RetryMore.
Import Xhttp Probe.
Context {W : Type} (DefaultLogger : LogLine -> W -> W).

Lemma attempts_in_range (n : Z) :
  1 <= n < max_int -> Z.to_nat (wrap64 (n + 1)) = S (Z.to_nat n).
Proof.
  intros Hn. rewrite wrap64_small by (unfold is_int, min_int, max_int in *; lia). lia.
Qed.

(** A first attempt that succeeds, or fails with an error that is not to be
    retried, is the only one: the caller gets what the wrapped function
    returned, and on success the decorated call is the plain call; on failure
    the only addition is the "all retries failed" line in the log. *)
Theorem RetryTransactor_first_attempt_final (o : RetryOptions W) (next : Transactor W)
    (request : HttpRequest) (w : W) :
  1 <= Retries o < max_int ->
  retryable (shouldRetry o) (fst (next request w)) = false ->
  RetryTransactor DefaultLogger o next request w
  = match snd (fst (next request w)) with
    | None => next request w
    | Some err =>
        (fst (next request w),
         logger DefaultLogger o
                (AllRetriesFailed (req_url request) err (Retries o + 1))
                (snd (next request w)))
    end.
Proof.
  intros Hn Hfinal.
  rewrite RetryTransactor_decorated by lia. unfold retrying.
  rewrite attempts_in_range by exact Hn. cbn [retryLoop].
  rewrite wrap64_small by (unfold is_int, min_int, max_int in *; lia).
  unfold retryable in Hfinal.
  destruct (next request w) as [result w1]. cbn [fst snd] in *.
  destruct (snd result) as [err|] eqn:Herr.
  - rewrite Hfinal. cbn [snd]. by rewrite Herr.
  - cbn [snd]. by rewrite Herr.
Qed.

(** At the largest [int] nothing is attempted: the wrapped function is not
    called, nothing is logged or counted, and the caller gets a nil response
    with a nil error. *)
Theorem RetryTransactor_no_attempt_at_max_int (o : RetryOptions W) (next : Transactor W)
    (request : HttpRequest) (w : W) :
  Retries o = max_int ->
  RetryTransactor DefaultLogger o next request w = ((None, None), w).
Proof.
  intros Hmax. rewrite RetryTransactor_decorated by (rewrite Hmax; unfold max_int; lia).
  unfold retrying. rewrite Hmax.
  replace (Z.to_nat (wrap64 (max_int + 1))) with 0%nat by (vm_compute; reflexivity).
  reflexivity.
Qed.

End RetryMore.

Lemma RetryTransactor_first_attempt_final_witness :
  Xhttp.RetryTransactor Sample.silent Sample.twoRetries
    (fun _ calls => ((Some (Xhttp.mkResponse 200 []), None), S calls)) Sample.get 0%nat
  = ((Some (Xhttp.mkResponse 200 []), None), 1%nat).
Proof.
  apply (RetryTransactor_first_attempt_final Sample.silent Sample.twoRetries
           (fun _ calls => ((Some (Xhttp.mkResponse 200 []), None), S calls))
           Sample.get 0%nat).
  - unfold max_int. simpl. lia.
  - reflexivity.
Defined.

Lemma RetryTransactor_no_attempt_at_max_int_witness :
  Xhttp.RetryTransactor Sample.silent (Xhttp.mkOptions None max_int None None)
                        Sample.unreachable Sample.get 0%nat
  = ((None, None), 0%nat).
Proof.
  apply (RetryTransactor_no_attempt_at_max_int Sample.silent
           (Xhttp.mkOptions None max_int None None) Sample.unreachable Sample.get 0%nat).
  reflexivity.
Defined.

Section RetryAccounting.
Import Xhttp Probe.
Context {W : Type} (DefaultLogger : LogLine -> W * Meter -> W * Meter).

Lemma retryLines_app (l1 l2 : list LogLine) :
  retryLines (l1 ++ l2) = retryLines l1 ++ retryLines l2.
Proof. unfold retryLines. apply flat_map_app. Qed.

Lemma failureLines_app (l1 l2 : list LogLine) :
  failureLines (l1 ++ l2) = failureLines l1 ++ failureLines l2.
Proof. unfold failureLines. apply flat_map_app. Qed.

Lemma observing_eq (next : Transactor W) request (w : W) (m : Meter) :
  observing next request (w, m)
  = (fst (next request w),
     (snd (next request w), mkMeter (S (calls m)) (counted m) (logged m))).
Proof. unfold observing. destruct (next request w); reflexivity. Qed.

(** The loop under observation: [k] calls are made, [c] of them are counted
    and logged as retried, with attempt numbers following the loop index. *)
Lemma retryLoop_metered (n : Z) (classify : option (Err -> bool))
    (next : Transactor W) request :
  forall (remaining : nat) (i : Z) last (w : W) (m0 : Meter),
  let run := retryLoop DefaultLogger (metered n classify) (observing next)
                       request remaining i last (w, m0) in
  exists (k c : nat) (lines : list LogLine),
    calls (snd (snd run)) = (calls m0 + k)%nat
    /\ counted (snd (snd run)) = (counted m0 + c)%nat
    /\ logged (snd (snd run)) = logged m0 ++ lines
    /\ retryLines lines = map (fun j => i + Z.of_nat j) (seq 1 c)
    /\ failureLines lines = []
    /\ (k <= remaining)%nat
    /\ (k = 0%nat -> remaining = 0%nat /\ fst run = last)
    /\ ((0 < k)%nat ->
        c = (if retryable (shouldRetry (metered (W:=W) n classify)) (fst run)
             then k else pred k)
        /\ (retryable (shouldRetry (metered (W:=W) n classify)) (fst run) = true ->
            k = remaining)).
Proof.
  induction remaining as [|remaining IH]; intros i last w m0; cbv zeta.
  - exists 0%nat, 0%nat, []. simpl. rewrite app_nil_r, !Nat.add_0_r.
    repeat split; auto; lia.
  - cbn [retryLoop]. rewrite observing_eq.
    destruct (next request w) as [result w1]. cbn [fst snd].
    destruct (snd result) as [err|] eqn:Herr.
    + destruct (shouldRetry (metered n classify) err) eqn:Hretry.
      * change (counterAdd (metered n classify)
                  (logger DefaultLogger (metered n classify)
                     (Retrying (req_url request) err (i + 1))
                     (w1, mkMeter (S (calls m0)) (counted m0) (logged m0))))
          with (w1, mkMeter (S (calls m0)) (S (counted m0))
                            (logged m0 ++ [Retrying (req_url request) err (i + 1)])).
        set (m1 := mkMeter _ _ _).
        destruct (IH (i + 1) result w1 m1) as (k & c & lines & Hk & Hc & Hl & Hr & Hf & Hle & Hz & Hpos).
        cbv zeta in *.
        exists (S k), (S c), (Retrying (req_url request) err (i + 1) :: lines).
        rewrite Hk, Hc, Hl. unfold m1. cbn [calls counted logged].
        split; [lia|]. split; [lia|]. split; [by rewrite <- app_assoc|].
        split.
        { change (Retrying (req_url request) err (i + 1) :: lines)
            with ([Retrying (req_url request) err (i + 1)] ++ lines).
          rewrite retryLines_app, Hr. cbn [retryLines flat_map app seq map].
          rewrite <- (seq_shift c 1), map_map.
          f_equal; try lia. apply map_ext. intros j. lia. }
        split; [exact Hf|]. split; [lia|]. split; [lia|].
        intros _. destruct k as [|k].
        -- destruct (Hz eq_refl) as [-> _]. cbn [retryLoop fst snd] in *.
           assert (c = 0%nat) as -> by lia.
           unfold retryable. rewrite Herr, Hretry. done.
        -- destruct (Hpos ltac:(lia)) as [Hcount Hfull].
           destruct (retryable _ _); split; try lia; intros; try discriminate.
      * exists 1%nat, 0%nat, []. cbn [fst snd calls counted logged].
        rewrite app_nil_r. unfold retryable. rewrite Herr, Hretry.
        repeat split; auto; try lia; intros; discriminate.
    + exists 1%nat, 0%nat, []. cbn [fst snd calls counted logged].
      rewrite app_nil_r. unfold retryable. rewrite Herr.
      repeat split; auto; try lia; intros; discriminate.
Qed.

(** The retry counter is incremented, and a "retrying" line carrying the
    attempt's number is logged, once for every attempt that fails with a
    retryable error: also for the last attempt, after which nothing is
    retried.  So the counter ends at the number of calls when the attempts
    are exhausted, and at one less when an attempt ended the loop.  "All
    retries failed" is logged, once and with the attempt count [n + 1],
    exactly when the error returned is not nil. *)
Theorem RetryTransactor_accounting (n : Z) (classify : option (Err -> bool))
    (next : Transactor W) (request : HttpRequest) (w : W) :
  1 <= n < max_int ->
  let run := RetryTransactor DefaultLogger (metered n classify) (observing next)
                             request (w, mkMeter 0 0 []) in
  let m := snd (snd run) in
  let exhausted := retryable (shouldRetry (metered (W:=W) n classify)) (fst run) in
  (1 <= calls m)%nat
  /\ Z.of_nat (calls m) <= n + 1
  /\ counted m = (if exhausted then calls m else pred (calls m))
  /\ retryLines (logged m) = map Z.of_nat (seq 1 (counted m))
  /\ failureLines (logged m)
     = match snd (fst run) with Some err => [(err, n + 1)] | None => [] end
  /\ (exhausted = true -> Z.of_nat (calls m) = n + 1).
Proof.
  intros Hn. cbv zeta.
  rewrite RetryTransactor_decorated by (simpl; lia). unfold retrying.
  cbn [Retries metered]. rewrite attempts_in_range by exact Hn.
  rewrite wrap64_small by (unfold is_int, min_int, max_int in *; lia).
  destruct (retryLoop_metered n classify next request (S (Z.to_nat n)) 0 (None, None)
              w (mkMeter 0 0 []))
    as (k & c & lines & Hk & Hc & Hl & Hr & Hf & Hle & Hz & Hpos).
  cbv zeta in *.
  destruct (retryLoop DefaultLogger _ _ _ _ _ _ _) as [result [w1 m]].
  cbn [fst snd calls counted logged] in *.
  assert (Hk1 : (0 < k)%nat).
  { destruct k; [|lia]. destruct (Hz eq_refl) as [? _]. discriminate. }
  destruct (Hpos Hk1) as [Hcount Hfull].
  assert (Hlines : map (fun j : nat => 0 + Z.of_nat j) (seq 1 c) = map Z.of_nat (seq 1 c))
    by (apply map_ext; intros; lia).
  rewrite Hlines in Hr.
  assert (Hend : forall err line,
            line = AllRetriesFailed (req_url request) err (n + 1) ->
            retryLines (lines ++ [line]) = map Z.of_nat (seq 1 c)
            /\ failureLines (lines ++ [line]) = [(err, n + 1)]).
  { intros err line ->. rewrite retryLines_app, failureLines_app, Hr, Hf.
    simpl. by rewrite app_nil_r. }
  destruct (snd result) as [err|] eqn:Herr; cbn [fst snd calls counted logged].
  - cbn [logger metered Logger calls counted logged].
    rewrite Hk, Hc, Hl. cbn [fst snd calls counted logged app Nat.add].
    destruct (Hend err _ eq_refl) as [Hr' Hf'].
    rewrite Herr, Hr', Hf'.
    repeat split; try lia; try done.
    intros Hex. rewrite Hfull by exact Hex. lia.
  - rewrite Hk, Hc, Hl. cbn [fst snd calls counted logged app Nat.add].
    rewrite Herr, Hr, Hf.
    repeat split; try lia; try done.
    intros Hex. rewrite Hfull by exact Hex. lia.
Qed.

End RetryAccounting.

(** Two retries against the unreachable server: three calls, the counter
    at three, three "retrying" lines numbered 1 to 3, and one "all retries
    failed" line. *)
Lemma RetryTransactor_accounting_witness :
  let m := snd (snd (Xhttp.RetryTransactor (fun _ s => s) (Probe.metered 2 None)
                       (Probe.observing Sample.unreachable) Sample.get
                       (0%nat, Probe.mkMeter 0 0 []))) in
  Probe.calls m = 3%nat
  /\ Probe.counted m = 3%nat
  /\ Probe.retryLines (Probe.logged m) = [1; 2; 3]
  /\ Probe.failureLines (Probe.logged m) = [(Sample.ioTimeout, 3)].
Proof.
  cbv zeta.
  pose proof (RetryTransactor_accounting (fun _ s => s) 2 None Sample.unreachable
                Sample.get 0%nat) as Hacc.
  cbv zeta in Hacc.
  destruct (Xhttp.RetryTransactor _ _ _ _ _) as [result [w m]] eqn:Hrun.
  cbn [fst snd] in *.
  assert (Hresult : result = (None, Some Sample.ioTimeout))
    by (vm_compute in Hrun; by injection Hrun as <- _ _).
  subst result.
  destruct Hacc as (_ & _ & Hcount & Hlines & Hfail & Hcalls);
    [unfold max_int; lia|].
  change (Xhttp.retryable _ _) with true in Hcount, Hcalls.
  assert (Hthree : Probe.calls m = 3%nat) by (specialize (Hcalls eq_refl); lia).
  rewrite Hcount, Hthree in Hlines. rewrite Hcount.
  split; [exact Hthree|]. split; [exact Hthree|]. split; [exact Hlines|exact Hfail].
Defined.

(** ** The read pump *)

Section ReadPumpMore.
Import Device Observe.
Context `{Wrp}.

(** The loop on a stream in two parts. *)
Lemma readLoop_app (before after : list ReadResult) (closeError : error) (h : Hub) :
  readLoop (before ++ after) closeError h
  = let '(h1, t1, running) := readLoop before closeError h in
    if running then
      let '(h2, t2, running') := readLoop after closeError h1 in
      (h2, t1 ++ t2, running')
    else (h1, t1, false).
Proof.
  revert h. induction before as [|r before IH]; intros h.
  - simpl. by destruct (readLoop after closeError h) as [[h2 t2] running'].
  - rewrite <- app_comm_cons, !readLoop_cons.
    destruct (readPump_iter r closeError h) as [[h0 t0] running0].
    destruct running0; [|done].
    rewrite IH.
    destruct (readLoop before closeError h0) as [[h1 t1] running1].
    destruct running1; [|done].
    destruct (readLoop after closeError h1) as [[h2 t2] running2].
    by rewrite app_assoc.
Qed.

(** The first failed read ends the read pump, whatever the frames before
    it and whatever is still to be read.  The frames before it leave the pump
    running; the failed read is logged with its error; the guarded teardown
    is invoked with a nil pump error, whatever the read error was; "readPump
    exiting" is logged last; and nothing that follows the failed read is
    handled. *)
Theorem readPump_ends_at_failed_read (frames : list (Z * bytes)) (readError : Err)
    (after : list ReadResult) (closeError : error) (h : Hub) :
  let before := map (fun f => Frame (fst f) (snd f)) frames in
  let '(h1, t1, running) := readLoop before closeError h in
  running = true
  /\ readLoop (before ++ ReadError readError :: after) closeError h
     = (fst (onceDo (pumpClose closeError None) h1),
        t1 ++ [Log ErrorLevel "read error" (Some readError)]
           ++ snd (onceDo (pumpClose closeError None) h1)
           ++ [Log DebugLevel "readPump exiting" None],
        false).
Proof.
  cbv zeta. rewrite readLoop_app.
  assert (Hrunning : forall h0, snd (readLoop (map (fun f => Frame (fst f) (snd f)) frames)
                                              closeError h0) = true).
  { induction frames as [|[messageType data] frames IH]; intros h0; [done|].
    cbn [map fst snd]. rewrite readLoop_cons. cbn [readPump_iter].
    destruct (readFrame messageType data (dev h0)) as [d' t].
    specialize (IH (setDev d' h0)).
    destruct (readLoop _ closeError (setDev d' h0)) as [[h2 t2] running2]. done. }
  specialize (Hrunning h).
  destruct (readLoop _ closeError h) as [[h1 t1] running]. simpl in Hrunning.
  subst running. split; [done|].
  rewrite readLoop_cons. cbn [readPump_iter]. unfold readPump_defer.
  destruct (onceDo (pumpClose closeError None) h1) as [h2 closing]. done.
Qed.

Lemma messageEvents_app (t1 t2 : list Action) :
  messageEvents (t1 ++ t2) = messageEvents t1 ++ messageEvents t2.
Proof. unfold messageEvents. by rewrite events_app, filter_app. Qed.

Lemma readFrame_accepted (messageType : Z) (data : bytes) (d : device) :
  let '(d', trace) := readFrame messageType data d in
  map evContents (messageEvents trace) = accepted [Frame messageType data]
  /\ Forall (fun ev => evDevice ev = self d /\ evFormat ev = Msgpack) (events trace)
  /\ messages d' = messages d /\ shutdown d' = shutdown d
  /\ self d' = self d /\ id d' = id d
  /\ transactions d' ⊆ transactions d.
Proof.
  unfold readFrame, accepted. simpl.
  case_decide as Hbinary.
  - rewrite decide_False by done. repeat split; try done; repeat constructor.
  - rewrite decide_True by (by destruct (decide (messageType = BinaryMessage))).
    destruct (decode data) as [err|message];
      [repeat split; try done; repeat constructor|].
    assert (Hm : forall t, events ((if decide (msgType message = SimpleRequestResponseMessageType)
                                    then [RequestResponseAdd] else []) ++ t) = events t)
      by (intros; rewrite events_app; case_decide; done).
    unfold messageEvents.
    destruct (IsTransactionPart message).
    + unfold Complete.
      destruct (decide (TransactionKey message ∈ transactions d)) as [Hopen|Hopen];
        rewrite Hm; simpl.
      * repeat split; try done; try apply subseteq_difference_l; try done;
          repeat constructor.
      * repeat split; try done; repeat constructor.
    + rewrite Hm. simpl. repeat split; try done; repeat constructor.
Qed.

Lemma readPump_iter_more (r : ReadResult) (closeError : error) (h : Hub) :
  let '(h', trace, running) := readPump_iter r closeError h in
  map evContents (messageEvents trace) = accepted (beforeFailure [r])
  /\ Forall (fun ev => evDevice ev = self (dev h)) (events trace)
  /\ messages (dev h') = messages (dev h)
  /\ self (dev h') = self (dev h)
  /\ transactions (dev h') ⊆ transactions (dev h)
  /\ (running = true ->
      devices h' = devices h /\ closeOnce h' = closeOnce h
      /\ shutdown (dev h') = shutdown (dev h)).
Proof.
  destruct r as [readError|messageType data]; simpl.
  - unfold readPump_defer.
    pose proof (onceDo_pumpClose_spec closeError None h) as Honce.
    destruct (onceDo (pumpClose closeError None) h) as [h1 closing].
    destruct Honce as (_ & Hself & _ & Hqueue & Hpending & _ & Hevents).
    change (Log ErrorLevel "read error" (Some readError)
              :: closing ++ [Log DebugLevel "readPump exiting" None])
      with ([Log ErrorLevel "read error" (Some readError)]
              ++ closing ++ [Log DebugLevel "readPump exiting" None]).
    unfold messageEvents. rewrite !events_app, Hevents. simpl. rewrite app_nil_r.
    rewrite Hpending.
    destruct (closeOnce h); repeat split; try done; repeat constructor.
  - pose proof (readFrame_accepted messageType data (dev h)) as Hframe.
    destruct (readFrame messageType data (dev h)) as [d' trace].
    destruct Hframe as (Hacc & Hall & ? & ? & ? & ? & ?).
    simpl in *. rewrite Hacc. repeat split; try done.
    eapply Forall_impl; [exact Hall|]. by intros ev [? ?].
Qed.

Lemma accepted_cons (r : ReadResult) (reads : list ReadResult) :
  accepted (r :: reads) = accepted [r] ++ accepted reads.
Proof. unfold accepted. simpl. by rewrite app_nil_r. Qed.

(** The read pump dispatches one event for every binary frame that decodes,
    in the order the frames arrive and each with its frame's bytes, up to the
    first failed read; frames that are dropped and reads after the failure
    give none.  Every event it dispatches names this connection's device. *)
Theorem readPump_events_follow_frames (reads : list ReadResult) (closeError : error)
    (h : Hub) :
  let '(h', trace, running) := readLoop reads closeError h in
  map evContents (messageEvents trace) = accepted (beforeFailure reads)
  /\ Forall (fun ev => evDevice ev = self (dev h)) (events trace).
Proof.
  revert h. induction reads as [|r reads IH]; intros h; [by repeat constructor|].
  rewrite readLoop_cons.
  pose proof (readPump_iter_more r closeError h) as Hiter.
  destruct (readPump_iter r closeError h) as [[h1 t1] running] eqn:Hrun.
  destruct Hiter as (Hacc & Hall & _ & Hself & _).
  destruct running.
  - specialize (IH h1).
    destruct (readLoop reads closeError h1) as [[h2 t2] running2].
    destruct IH as [IHacc IHall].
    rewrite messageEvents_app, events_app, map_app, Hacc, IHacc.
    split.
    + destruct r as [readError|messageType data].
      * simpl in Hrun. destruct (readPump_defer closeError h). discriminate.
      * cbn [beforeFailure].
        by rewrite (accepted_cons (Frame messageType data) (beforeFailure reads)).
    + apply Forall_app. split; [done|].
      eapply Forall_impl; [exact IHall|]. intros ev Hev. by rewrite Hev.
  - split; [|done]. rewrite Hacc.
    destruct r as [readError|messageType data]; [done|].
    simpl in Hrun. destruct (readFrame messageType data (dev h)). discriminate.
Qed.

(** The read pump never touches the device's outbound queue, whether it
    goes on or ends, and it only ever closes open transactions; while it
    runs it changes neither the registry, nor the teardown guard, nor the
    shutdown signal. *)
Theorem readPump_leaves_the_rest (reads : list ReadResult) (closeError : error) (h : Hub) :
  let '(h', trace, running) := readLoop reads closeError h in
  messages (dev h') = messages (dev h)
  /\ transactions (dev h') ⊆ transactions (dev h)
  /\ (running = true ->
      devices h' = devices h /\ closeOnce h' = closeOnce h
      /\ shutdown (dev h') = shutdown (dev h)).
Proof.
  revert h. induction reads as [|r reads IH]; intros h; [done|].
  rewrite readLoop_cons.
  pose proof (readPump_iter_more r closeError h) as Hiter.
  destruct (readPump_iter r closeError h) as [[h1 t1] running].
  destruct Hiter as (_ & _ & Hqueue & _ & Hpending & Hrunning).
  destruct running; [|done].
  specialize (IH h1).
  destruct (readLoop reads closeError h1) as [[h2 t2] running2].
  destruct IH as (IHqueue & IHpending & IHrunning).
  destruct (Hrunning eq_refl) as (Hreg & Hguard & Hshut).
  split; [congruence|]. split; [by etrans|].
  intros Hrun. destruct (IHrunning Hrun) as (? & ? & ?).
  repeat split; congruence.
Qed.

End ReadPumpMore.

(** A reply, a text frame, a frame too short to decode and, after a failed
    read, another reply: only the first reply gives an event. *)
Lemma readPump_events_follow_frames_witness :
  let '(h', trace, running) :=
    @Device.readLoop Sample.toy
       [Device.Frame Device.BinaryMessage Sample.replyFrame;
        Device.Frame Device.TextMessage [x68; x69];
        Device.Frame Device.BinaryMessage [x03];
        Device.ReadError Sample.brokenPipe;
        Device.Frame Device.BinaryMessage Sample.replyFrame]
       None (Sample.hub1 []) in
  map Device.evContents (Observe.messageEvents trace) = [Sample.replyFrame].
Proof.
  pose proof (@readPump_events_follow_frames Sample.toy
                [Device.Frame Device.BinaryMessage Sample.replyFrame;
                 Device.Frame Device.TextMessage [x68; x69];
                 Device.Frame Device.BinaryMessage [x03];
                 Device.ReadError Sample.brokenPipe;
                 Device.Frame Device.BinaryMessage Sample.replyFrame]
                None (Sample.hub1 [])) as Hev.
  destruct (Device.readLoop _ _ _) as [[h' trace] running].
  destruct Hev as [Hev _]. rewrite Hev. reflexivity.
Defined.

(** ** The write pump *)

Section WritePumpMore.
Import Device Observe.
Context `{Wrp}.

Lemma closedChans_app (t1 t2 : list Action) :
  closedChans (t1 ++ t2) = closedChans t1 ++ closedChans t2.
Proof. unfold closedChans. apply flat_map_app. Qed.

Lemma notified_app (t1 t2 : list Action) :
  notified (t1 ++ t2) = notified t1 ++ notified t2.
Proof. unfold notified. apply flat_map_app. Qed.

Lemma drain_channels (d : device) (writeError : error) (queue : list envelope) :
  closedChans (drain d writeError queue) = [] /\ notified (drain d writeError queue) = [].
Proof. induction queue as [|e queue IH]; [done|]. exact IH. Qed.

(** The deferred function of the write pump touches no sender's channel. *)
Lemma writePump_defer_channels (writeError : error) (current : option envelope)
    (closeError : error) (h : Hub) :
  closedChans (snd (writePump_defer writeError current closeError h)) = []
  /\ notified (snd (writePump_defer writeError current closeError h)) = [].
Proof.
  unfold writePump_defer, onceDo.
  destruct (closeOnce h).
  - cbn [fst snd]. rewrite !closedChans_app, !notified_app.
    destruct (drain_channels (dev h) writeError (messages (dev h))) as [-> ->].
    by destruct current.
  - destruct (pumpClose closeError writeError _) as [h1 closing] eqn:Hclose.
    assert (Hquiet : closedChans closing = [] /\ notified closing = []).
    { unfold pumpClose in Hclose. injection Hclose as _ <-.
      by destruct closeError, writeError. }
    destruct Hquiet as [Hc Hn].
    cbn [fst snd]. rewrite !closedChans_app, !notified_app, Hc, Hn.
    destruct (drain_channels (dev h1) writeError (messages (dev h1))) as [-> ->].
    by destruct current.
Qed.

(** What sending one envelope leaves in the trace. *)
Lemma sendEnvelope_account (d : device) (e : envelope) (writeResult : error) :
  let '(writeError, trace) := sendEnvelope d e writeResult in
  closedChans trace = [complete e]
  /\ (length (writes trace) <= 1)%nat
  /\ match writeError with
     | None => events trace = [sentEvent d e] /\ notified trace = []
               /\ length (writes trace) = 1%nat
     | Some err => events trace = [failedEvent d e (Some err)]
                   /\ notified trace = [(complete e, err)]
     end.
Proof.
  unfold sendEnvelope. case_decide.
  - destruct writeResult; repeat split; simpl; lia.
  - destruct (encode _); [repeat split; simpl; lia|].
    destruct writeResult; repeat split; simpl; lia.
Qed.

Lemma sentEvent_self (d d' : device) (e : envelope) :
  self d = self d' -> sentEvent d e = sentEvent d' e.
Proof. unfold sentEvent. by intros ->. Qed.

Lemma disconnectEvent_self (d d' : device) :
  self d = self d' -> disconnectEvent d = disconnectEvent d'.
Proof. unfold disconnectEvent. by intros ->. Qed.

(** One iteration of the write pump takes at most the head of the queue. *)
Lemma writePump_iter_account (w : Wake) (closeError : error) (h : Hub) :
  let '(h', trace, running) := writePump_iter w closeError h in
  exists taken rest,
    messages (dev h) = taken ++ rest
    /\ (length taken <= 1)%nat
    /\ self (dev h') = self (dev h)
    /\ closedChans trace = map complete taken
    /\ (length (writes trace) <= length taken)%nat
    /\ if running then
         messages (dev h') = rest
         /\ events trace = map (sentEvent (dev h)) taken
         /\ notified trace = []
         /\ length (writes trace) = length taken
         /\ closeOnce h' = closeOnce h
       else
         messages (dev h') = []
         /\ exists writeError,
              events trace
              = map (fun e => failedEvent (dev h) e writeError) taken
                ++ (if closeOnce h then [] else [disconnectEvent (dev h)])
                ++ map (fun e => failedEvent (dev h) e writeError) (taken ++ rest)
              /\ notified trace
                 = match writeError with
                   | Some err => map (fun e => (complete e, err)) taken
                   | None => []
                   end
              /\ (taken ≠ [] -> writeError ≠ None).
Proof.
  assert (Hdefer : forall writeError current h0,
            let '(h1, t) := writePump_defer writeError current closeError h0 in
            self (dev h1) = self (dev h0) /\ messages (dev h1) = []
            /\ writes t = [] /\ closedChans t = [] /\ notified t = []
            /\ events t
               = (if closeOnce h0 then [] else [disconnectEvent (dev h0)])
                 ++ match current with
                    | Some e => [failedEvent (dev h0) e writeError]
                    | None => []
                    end
                 ++ map (fun e => failedEvent (dev h0) e writeError) (messages (dev h0))).
  { intros writeError current h0.
    pose proof (writePump_defer_spec writeError current closeError h0) as Hspec.
    pose proof (writePump_defer_channels writeError current closeError h0) as [Hc Hn].
    destruct (writePump_defer writeError current closeError h0) as [h1 t].
    destruct Hspec as (_ & ? & _ & ? & ? & ?). done. }
  destruct w as [closeResult|writeResult|pingResult]; simpl.
  - destruct (shutdown (dev h)); [|exists [], (messages (dev h)); repeat split; simpl; try done; lia].
    specialize (Hdefer closeResult None h).
    destruct (writePump_defer closeResult None closeError h) as [h1 t].
    destruct Hdefer as (Hself & Hq & Hw & Hc & Hn & Hev).
    exists [], (messages (dev h)).
    rewrite !writes_cons, !events_cons. unfold closedChans, notified in *. simpl.
    rewrite Hw, Hc, Hn, Hev.
    repeat split; simpl; try done; try lia. exists closeResult. by destruct closeResult.
  - destruct (messages (dev h)) as [|e queue] eqn:Hqueue; [exists [], []; repeat split; simpl; try done; lia|].
    pose proof (sendEnvelope_account (dev h) e writeResult) as Hsend.
    destruct (sendEnvelope (dev h) e writeResult) as [[err|] t0].
    + destruct Hsend as (Hclosed & Hwrites & Hevents & Hnotified).
      set (h0 := setDev (setMessages queue (dev h)) h).
      specialize (Hdefer (Some err) (Some e) h0).
      destruct (writePump_defer (Some err) (Some e) closeError h0) as [h1 t].
      destruct Hdefer as (Hself & Hq & Hw & Hc & Hn & Hev).
      exists [e], queue.
      rewrite writes_app, events_app, closedChans_app, notified_app.
      rewrite Hw, Hc, Hn, Hev, Hclosed, Hevents, Hnotified, !app_nil_r.
      repeat split; simpl; try done; try lia. exists (Some err). repeat split; done.
    + destruct Hsend as (Hclosed & Hwrites & Hevents & Hnotified & Hone).
      exists [e], queue. simpl. rewrite Hone. repeat split; simpl; try done; lia.
  - destruct pingResult as [err|]; [|exists [], (messages (dev h)); repeat split; simpl; try done; lia].
    specialize (Hdefer (Some err) None h).
    destruct (writePump_defer (Some err) None closeError h) as [h1 t].
    destruct Hdefer as (Hself & Hq & Hw & Hc & Hn & Hev).
    exists [], (messages (dev h)).
    rewrite !writes_cons, !events_cons. unfold closedChans, notified in *. simpl.
    rewrite Hw, Hc, Hn, Hev.
    repeat split; simpl; try done; try lia. by exists (Some err).
Qed.

(** The whole loop: a prefix of the queue is taken, in order; while the
    pump runs every envelope taken was sent; when it has ended at most the
    last one taken failed, and the rest was drained. *)
Lemma writeLoop_account (wakes : list Wake) (closeError : error) :
  forall h : Hub,
  let '(h', trace, running) := writeLoop wakes closeError h in
  exists taken rest,
    messages (dev h) = taken ++ rest
    /\ self (dev h') = self (dev h)
    /\ closedChans trace = map complete taken
    /\ (length (writes trace) <= length taken)%nat
    /\ if running then
         messages (dev h') = rest
         /\ events trace = map (sentEvent (dev h)) taken
         /\ notified trace = []
         /\ length (writes trace) = length taken
         /\ closeOnce h' = closeOnce h
       else
         messages (dev h') = []
         /\ exists sent failed writeError,
              taken = sent ++ failed
              /\ (length failed <= 1)%nat
              /\ events trace
                 = map (sentEvent (dev h)) sent
                   ++ map (fun e => failedEvent (dev h) e writeError) failed
                   ++ (if closeOnce h then [] else [disconnectEvent (dev h)])
                   ++ map (fun e => failedEvent (dev h) e writeError) (failed ++ rest)
              /\ notified trace
                 = match writeError with
                   | Some err => map (fun e => (complete e, err)) failed
                   | None => []
                   end
              /\ (failed ≠ [] -> writeError ≠ None).
Proof.
  induction wakes as [|w wakes IH]; intros h.
  - exists [], (messages (dev h)). simpl. repeat split; try done; lia.
  - cbn [writeLoop].
    pose proof (writePump_iter_account w closeError h) as Hiter.
    destruct (writePump_iter w closeError h) as [[h1 t1] running1].
    destruct Hiter as (taken1 & rest1 & Hq1 & Hlen1 & Hself1 & Hc1 & Hw1 & Hiter).
    destruct running1.
    + destruct Hiter as (Hrest1 & Hev1 & Hn1 & Hwn1 & Hguard1).
      specialize (IH h1).
      destruct (writeLoop wakes closeError h1) as [[h2 t2] running2].
      destruct IH as (taken2 & rest2 & Hq2 & Hself2 & Hc2 & Hw2 & IH).
      exists (taken1 ++ taken2), rest2.
      rewrite Hq1, <- Hrest1, Hq2, closedChans_app, writes_app, events_app,
        notified_app, Hc1, Hc2, Hev1, Hn1, !length_app, map_app, <- app_assoc.
      split; [done|]. split; [congruence|]. split; [done|]. split; [lia|].
      assert (Hsent : forall l, map (sentEvent (dev h1)) l = map (sentEvent (dev h)) l)
        by (intros; apply map_ext; intros; by apply sentEvent_self).
      assert (Hfailed : forall err l, map (fun e => failedEvent (dev h1) e err) l
                                      = map (fun e => failedEvent (dev h) e err) l)
        by (intros; apply map_ext; intros; by apply failedEvent_self).
      destruct running2.
      * destruct IH as (-> & -> & -> & Hwn2 & ->).
        rewrite Hsent, map_app. repeat split; try done; lia.
      * destruct IH as (-> & sent & failed & writeError & -> & Hlen & -> & -> & Hsome).
        split; [done|].
        exists (taken1 ++ sent), failed, writeError.
        rewrite Hsent, !Hfailed, Hguard1, (disconnectEvent_self (dev h1) (dev h)) by done.
        rewrite !map_app, <- !app_assoc. repeat split; done.
    + destruct Hiter as (Hempty & writeError & Hev & Hn & Hsome).
      exists taken1, rest1.
      split; [done|]. split; [done|]. split; [done|]. split; [done|].
      split; [done|].
      exists [], taken1, writeError. repeat split; done.
Qed.

(** While the write pump runs, what it has sent is a prefix of the queue,
    in queue order: one frame written, one message-sent event and the
    sender's channel closed for each envelope taken, nothing sent on any
    channel, and the envelopes not yet taken still in the queue. *)
Theorem writePump_sends_in_queue_order (wakes : list Wake) (closeError : error) (h : Hub) :
  let '(h', trace, running) := writeLoop wakes closeError h in
  running = true ->
  exists taken,
    messages (dev h) = taken ++ messages (dev h')
    /\ events trace = map (sentEvent (dev h)) taken
    /\ closedChans trace = map complete taken
    /\ notified trace = []
    /\ length (writes trace) = length taken.
Proof.
  pose proof (writeLoop_account wakes closeError h) as Hloop.
  destruct (writeLoop wakes closeError h) as [[h' trace] running].
  intros ->.
  destruct Hloop as (taken & rest & Hq & _ & Hc & _ & <- & Hev & Hn & Hw & _).
  by exists taken.
Qed.

(** When the write pump has ended its queue is empty and no envelope was
    lost without a word: for every envelope that was queued there is a
    message-sent or message-failed event with its message, format and
    contents. *)
Theorem writePump_end_accounts_for_queue (wakes : list Wake) (closeError : error) (h : Hub) :
  let '(h', trace, running) := writeLoop wakes closeError h in
  running = false ->
  messages (dev h') = []
  /\ Forall (fun e => exists ev, ev ∈ events trace /\ reports e ev) (messages (dev h)).
Proof.
  pose proof (writeLoop_account wakes closeError h) as Hloop.
  destruct (writeLoop wakes closeError h) as [[h' trace] running].
  intros ->.
  destruct Hloop as (taken & rest & Hq & _ & _ & _ & Hempty & sent & failed & writeError
                       & -> & _ & Hev & _).
  split; [done|].
  rewrite Hq, Hev. apply Forall_forall. intros e He.
  rewrite <- app_assoc in He.
  apply elem_of_app in He as [He|He].
  - exists (sentEvent (dev h) e). split.
    + apply elem_of_app. left. by apply list_elem_of_fmap_2.
    + unfold reports, sentEvent. simpl. auto.
  - exists (failedEvent (dev h) e writeError). split.
    + do 3 (apply elem_of_app; right).
      apply (list_elem_of_fmap_2 (fun e => failedEvent (dev h) e writeError)). exact He.
    + unfold reports, failedEvent. simpl. auto.
Qed.

(** The write pump closes the channel of each envelope it takes from the
    queue, once and in queue order, and of no other; it sends an error on a
    channel at most once, on the channel of the envelope whose write failed.
    The senders of the envelopes it drains when it ends get nothing on their
    channels. *)
Theorem writePump_notifies_only_taken (wakes : list Wake) (closeError : error) (h : Hub) :
  let '(h', trace, running) := writeLoop wakes closeError h in
  exists taken drained,
    messages (dev h) = taken ++ drained
    /\ closedChans trace = map complete taken
    /\ (length (notified trace) <= 1)%nat
    /\ (forall ch err, (ch, err) ∈ notified trace -> last (map complete taken) = Some ch)
    /\ (running = false ->
        Forall (fun e => exists ev, ev ∈ events trace /\ evType ev = MessageFailed
                                    /\ reports e ev) drained).
Proof.
  pose proof (writeLoop_account wakes closeError h) as Hloop.
  destruct (writeLoop wakes closeError h) as [[h' trace] running].
  destruct Hloop as (taken & rest & Hq & _ & Hc & _ & Hloop).
  exists taken, rest. split; [done|]. split; [done|].
  destruct running.
  - destruct Hloop as (_ & _ & -> & _). simpl.
    split; [lia|]. split; [|done]. intros ch err Hin. by apply elem_of_nil in Hin.
  - destruct Hloop as (_ & sent & failed & writeError & -> & Hlen & Hev & Hn & _).
    assert (Hnotified : (length (notified trace) <= 1)%nat
                        /\ forall ch err, (ch, err) ∈ notified trace ->
                                          last (map complete (sent ++ failed)) = Some ch).
    { rewrite Hn. destruct writeError as [err|]; [|split; [simpl; lia|]].
      - rewrite length_map. split; [done|]. intros ch err' Hin.
        destruct failed as [|e [|e' failed]]; [by apply elem_of_nil in Hin| |simpl in Hlen; lia].
        apply list_elem_of_singleton in Hin. injection Hin as -> ->.
        rewrite map_app. simpl. apply last_snoc.
      - intros ch err Hin. by apply elem_of_nil in Hin. }
    destruct Hnotified as [? ?].
    split; [done|]. split; [done|]. intros _.
    apply Forall_forall. intros e He.
    exists (failedEvent (dev h) e writeError). split.
    + rewrite Hev. do 3 (apply elem_of_app; right).
      apply (list_elem_of_fmap_2 (fun e => failedEvent (dev h) e writeError)).
      apply elem_of_app. by right.
    + unfold reports, failedEvent. simpl. auto.
Qed.

End WritePumpMore.

(** With two envelopes queued, a ping in between and both writes
    succeeding, the pump is still running and has sent both, in order. *)
Lemma writePump_sends_in_queue_order_witness :
  let '(h', trace, running) :=
    @Device.writeLoop Sample.toy
       [Device.WMessage None; Device.WTick None; Device.WMessage None] None
       (Sample.hub1 [Sample.packedEnvelope; Sample.noticeEnvelope]) in
  exists taken,
    [Sample.packedEnvelope; Sample.noticeEnvelope] = taken ++ Device.messages (Device.dev h')
    /\ Device.events trace
       = map (Observe.sentEvent (Sample.dev1 [Sample.packedEnvelope; Sample.noticeEnvelope]))
             taken
    /\ Observe.closedChans trace = map Device.complete taken
    /\ Observe.notified trace = []
    /\ length (Device.writes trace) = length taken.
Proof.
  pose proof (@writePump_sends_in_queue_order Sample.toy
                [Device.WMessage None; Device.WTick None; Device.WMessage None] None
                (Sample.hub1 [Sample.packedEnvelope; Sample.noticeEnvelope])) as Hsent.
  destruct (Device.writeLoop _ _ _) as [[h' trace] running] eqn:Hrun.
  apply Hsent. vm_compute in Hrun. by injection Hrun as _ _ <-.
Defined.

(** The first write fails: the pump has ended, the queue is empty and both
    envelopes are reported. *)
Lemma writePump_end_accounts_for_queue_witness :
  let '(h', trace, running) :=
    @Device.writeLoop Sample.toy [Device.WMessage (Some Sample.brokenPipe)] None
       (Sample.hub1 [Sample.packedEnvelope; Sample.noticeEnvelope]) in
  Device.messages (Device.dev h') = []
  /\ Forall (fun e => exists ev, ev ∈ Device.events trace /\ Observe.reports e ev)
            [Sample.packedEnvelope; Sample.noticeEnvelope].
Proof.
  pose proof (@writePump_end_accounts_for_queue Sample.toy
                [Device.WMessage (Some Sample.brokenPipe)] None
                (Sample.hub1 [Sample.packedEnvelope; Sample.noticeEnvelope])) as Hend.
  destruct (Device.writeLoop _ _ _) as [[h' trace] running] eqn:Hrun.
  apply Hend. vm_compute in Hrun. by injection Hrun as _ _ <-.
Defined.

(** The first write fails: only the first envelope's channel is closed, and
    the second envelope, drained, is reported by a message-failed event. *)
Lemma writePump_notifies_only_taken_witness :
  let '(h', trace, running) :=
    @Device.writeLoop Sample.toy [Device.WMessage (Some Sample.brokenPipe)] None
       (Sample.hub1 [Sample.packedEnvelope; Sample.noticeEnvelope]) in
  exists taken drained,
    [Sample.packedEnvelope; Sample.noticeEnvelope] = taken ++ drained
    /\ Observe.closedChans trace = map Device.complete taken
    /\ Forall (fun e => exists ev, ev ∈ Device.events trace
                                   /\ Device.evType ev = Device.MessageFailed
                                   /\ Observe.reports e ev) drained.
Proof.
  pose proof (@writePump_notifies_only_taken Sample.toy
                [Device.WMessage (Some Sample.brokenPipe)] None
                (Sample.hub1 [Sample.packedEnvelope; Sample.noticeEnvelope])) as Hnote.
  destruct (Device.writeLoop _ _ _) as [[h' trace] running] eqn:Hrun.
  destruct Hnote as (taken & drained & Hq & Hclosed & _ & _ & Hdrained).
  exists taken, drained. split; [exact Hq|]. split; [exact Hclosed|].
  apply Hdrained. vm_compute in Hrun. by injection Hrun as _ _ <-.
Defined.

(** ** The connection as a whole *)

Section SessionMore.
Import Device Observe.
Context `{Wrp}.

Lemma closes_app (t1 t2 : list Action) : closes (t1 ++ t2) = (closes t1 + closes t2)%nat.
Proof. unfold closes. by rewrite List.filter_app, length_app. Qed.

Lemma closes_onceDo (closeError pumpError : error) (h : Hub) :
  closes (snd (onceDo (pumpClose closeError pumpError) h))
  = if closeOnce h then 0%nat else 1%nat.
Proof.
  unfold onceDo. destruct (closeOnce h); [done|].
  by destruct closeError, pumpError.
Qed.

Lemma closes_drain (d : device) (writeError : error) (queue : list envelope) :
  closes (drain d writeError queue) = 0%nat.
Proof. induction queue as [|e queue IH]; [done|]. exact IH. Qed.

Lemma closes_writePump_defer (writeError : error) (current : option envelope)
    (closeError : error) (h : Hub) :
  closes (snd (writePump_defer writeError current closeError h))
  = if closeOnce h then 0%nat else 1%nat.
Proof.
  unfold writePump_defer.
  pose proof (closes_onceDo closeError writeError h) as Honce.
  destruct (onceDo (pumpClose closeError writeError) h) as [h1 closing].
  cbn [snd] in *. rewrite !closes_app, Honce, closes_drain.
  destruct current, (closeOnce h); reflexivity.
Qed.

Lemma closes_readFrame (messageType : Z) (data : bytes) (d : device) :
  closes (snd (readFrame messageType data d)) = 0%nat.
Proof.
  unfold readFrame. case_decide; [done|].
  destruct (decode data) as [err|message]; [done|].
  assert (Hm : closes (if decide (msgType message = SimpleRequestResponseMessageType)
                       then [RequestResponseAdd] else []) = 0%nat)
    by (case_decide; done).
  destruct (IsTransactionPart message).
  - destruct (Complete _ _) as [pending [e|]]; cbn [snd]; by rewrite closes_app, Hm.
  - cbn [snd]. by rewrite closes_app, Hm.
Qed.

Lemma closes_sendEnvelope (d : device) (e : envelope) (writeResult : error) :
  closes (snd (sendEnvelope d e writeResult)) = 0%nat.
Proof.
  unfold sendEnvelope. case_decide.
  - by destruct writeResult.
  - destruct (encode _); [done|]. by destruct writeResult.
Qed.

(** One step closes the connection as often as it spends the guard, plus
    once if it is the write pump ending on the shutdown signal. *)
Lemma step_closes (s : Stimulus) (c : Session) :
  closeOnce (hub c) = negb (reading c && writing c) ->
  let '(c', trace) := step s c in
  let unspent := fun k : Session => if closeOnce (hub k) then 0%nat else 1%nat in
  let alive := fun k : Session => if writing k then 1%nat else 0%nat in
  (unspent c - unspent c' <= closes trace)%nat
  /\ (closes trace + unspent c' + alive c' <= unspent c + alive c)%nat.
Proof.
  intros Hguard.
  pose proof (step_teardown s c Hguard) as Hstep.
  destruct c as [h rd wr]. simpl in Hguard.
  destruct s as [r closeError|w closeError|deviceID|e]; simpl in *.
  - destruct rd; simpl in *; [|destruct (closeOnce h); simpl; lia].
    destruct r as [readError|messageType data]; simpl in *.
    + pose proof (closes_onceDo closeError None h) as Hc.
      unfold readPump_defer in *.
      destruct (onceDo (pumpClose closeError None) h) as [h1 closing]. simpl in *.
      destruct Hstep as (Hspent & _).
      unfold closes in *. simpl. rewrite List.filter_app, length_app, Hc, Hspent. simpl.
      destruct (closeOnce h), wr; simpl; lia.
    + pose proof (closes_readFrame messageType data (dev h)) as Hc.
      destruct (readFrame messageType data (dev h)) as [d' t]. simpl in *.
      rewrite Hc. destruct (closeOnce h), wr; simpl; lia.
  - destruct wr; simpl in *; [|destruct (closeOnce h); simpl; lia].
    destruct w as [closeResult|writeResult|pingResult]; simpl in *.
    + destruct (shutdown (dev h)); simpl; [|destruct (closeOnce h); simpl; lia].
      pose proof (closes_writePump_defer closeResult None closeError h) as Hc.
      destruct (writePump_defer closeResult None closeError h) as [h1 t]. simpl in *.
      destruct Hstep as (Hspent & _). rewrite andb_false_r in Hspent. simpl in Hspent.
      unfold closes in *. simpl. rewrite Hc, Hspent.
      destruct (closeOnce h); simpl; lia.
    + destruct (messages (dev h)) as [|e queue]; simpl;
        [destruct (closeOnce h); simpl; lia|].
      pose proof (closes_sendEnvelope (dev h) e writeResult) as Hc0.
      destruct (sendEnvelope (dev h) e writeResult) as [[err|] t0]; simpl in *.
      * pose proof (closes_writePump_defer (Some err) (Some e) closeError
                      (setDev (setMessages queue (dev h)) h)) as Hc.
        destruct (writePump_defer (Some err) (Some e) closeError _) as [h1 t].
        simpl in *. destruct Hstep as (Hspent & _).
        rewrite andb_false_r in Hspent. simpl in Hspent.
        unfold closes in *. rewrite List.filter_app, length_app, Hc0, Hc, Hspent. simpl.
        destruct (closeOnce h); simpl; lia.
      * rewrite Hc0. destruct (closeOnce h); simpl; lia.
    + destruct pingResult as [err|]; simpl; [|destruct (closeOnce h); simpl; lia].
      pose proof (closes_writePump_defer (Some err) None closeError h) as Hc.
      destruct (writePump_defer (Some err) None closeError h) as [h1 t]. simpl in *.
      destruct Hstep as (Hspent & _). rewrite andb_false_r in Hspent. simpl in Hspent.
      unfold closes in *. simpl. rewrite Hc, Hspent.
      destruct (closeOnce h); simpl; lia.
  - destruct Hstep as (_ & _ & _ & _ & Hstep).
    unfold manager_Disconnect in *.
    destruct (remove_spec deviceID h) as (_ & Hsame & _). cbv zeta in Hsame.
    rewrite Hsame. destruct (closeOnce h), wr; simpl; lia.
  - destruct (closeOnce h), wr; simpl; lia.
Qed.

Lemma run_closes (schedule : list Stimulus) :
  forall c : Session,
  closeOnce (hub c) = negb (reading c && writing c) ->
  let '(c', trace) := run schedule c in
  let unspent := fun k : Session => if closeOnce (hub k) then 0%nat else 1%nat in
  let alive := fun k : Session => if writing k then 1%nat else 0%nat in
  (unspent c - unspent c' <= closes trace)%nat
  /\ (closes trace + unspent c' + alive c' <= unspent c + alive c)%nat.
Proof.
  induction schedule as [|s schedule IH]; intros c Hguard.
  - simpl. unfold closes. simpl. lia.
  - cbn [run].
    pose proof (step_closes s c Hguard) as Hstep.
    pose proof (step_teardown s c Hguard) as Hinv.
    destruct (step s c) as [c1 t1].
    destruct Hinv as (Hguard1 & _).
    specialize (IH c1 Hguard1).
    destruct (run schedule c1) as [c2 t2].
    cbv zeta in *. rewrite closes_app. lia.
Qed.

(** Under every schedule the connection is closed at most twice: once by
    the teardown and once more if the write pump ends on the shutdown
    signal, where it closes the connection itself before the teardown is
    reached.  It is not closed while both pumps run, and it is closed at
    least once as soon as one has ended. *)
Theorem connection_closed_once_or_twice (schedule : list Stimulus) (r : registry)
    (d : device) :
  let '(c, trace) := run schedule (connected r d) in
  if reading c && writing c then closes trace = 0%nat
  else (1 <= closes trace <= 2)%nat.
Proof.
  pose proof (run_closes schedule (connected r d) eq_refl) as Hcloses.
  pose proof (run_teardown schedule (connected r d) eq_refl) as Hinv.
  destruct (run schedule (connected r d)) as [c trace].
  destruct Hinv as (Hguard & _). cbv zeta in Hcloses. simpl in Hcloses.
  rewrite Hguard in Hcloses.
  destruct (reading c) eqn:Hr, (writing c) eqn:Hw; simpl in *; lia.
Qed.

(** A failed read reaches the write pump.  When the device is registered
    and the teardown has not run, the read pump's teardown unregisters the
    device and raises its shutdown signal; the write pump, waking on the
    signal, closes the connection again and ends without a second teardown,
    and reports every envelope still queued as failed, with the result of
    its own [Close] as the error. *)
Theorem read_failure_ends_write_pump (readError : Err) (closeError : error) (h : Hub) :
  registry_get (id (dev h)) (devices h) = Some (self (dev h)) ->
  closeOnce h = false ->
  let '(h1, t1, reading) := readPump_iter (ReadError readError) closeError h in
  reading = false
  /\ shutdown (dev h1) = true
  /\ registry_get (id (dev h)) (devices h1) = None
  /\ forall closeResult closeError',
       let '(h2, t2, writing) := writePump_iter (WShutdown closeResult) closeError' h1 in
       writing = false
       /\ teardowns t2 = []
       /\ closes t2 = 1%nat
       /\ events t2 = map (fun e => failedEvent (dev h) e closeResult) (messages (dev h))
       /\ messages (dev h2) = [].
Proof.
  intros Hregistered Hguard. unfold registry_get in *. simpl.
  unfold readPump_defer, onceDo. rewrite Hguard.
  unfold pumpClose, remove, registry_remove. cbn [fst snd devices dev closeOnce].
  rewrite Hregistered, decide_True by done. cbn [fst snd].
  set (h1 := mkHub _ (requestClose (dev h)) true).
  split; [done|]. split; [done|]. split; [apply lookup_delete_eq|].
  intros closeResult closeError'.
  change (shutdown (dev h1)) with true. cbv iota.
  pose proof (writePump_defer_spec closeResult None closeError' h1) as Hspec.
  pose proof (writePump_defer_teardown closeResult None closeError' h1) as Htear.
  pose proof (closes_writePump_defer closeResult None closeError' h1) as Hcloses.
  destruct (writePump_defer closeResult None closeError' h1) as [h2 t2].
  destruct Hspec as (_ & _ & _ & Hempty & _ & Hevents).
  destruct Htear as (_ & _ & _ & _ & Htear).
  cbn [fst snd closeOnce h1 dev requestClose messages self] in *.
  change (Log DebugLevel "explicit shutdown" None :: ConnClose :: t2)
    with ([Log DebugLevel "explicit shutdown" None; ConnClose] ++ t2).
  rewrite teardowns_app, closes_app, events_app, Htear, Hcloses, Hevents.
  repeat split; done.
Qed.

End SessionMore.

(** The read fails and the write pump then wakes on the shutdown signal:
    the connection has been closed, and not more than twice. *)
Lemma connection_closed_once_or_twice_witness :
  let '(c, trace) :=
    @Device.run Sample.toy
       [Device.Reads (Device.ReadError Sample.brokenPipe) None;
        Device.Wakes (Device.WShutdown None) None]
       (Device.connected Sample.oneDevice (Sample.dev1 [])) in
  (1 <= Observe.closes trace <= 2)%nat.
Proof.
  pose proof (@connection_closed_once_or_twice Sample.toy
                [Device.Reads (Device.ReadError Sample.brokenPipe) None;
                 Device.Wakes (Device.WShutdown None) None]
                Sample.oneDevice (Sample.dev1 [])) as Hc.
  destruct (Device.run _ _) as [c trace] eqn:Hrun.
  assert (Hended : Device.reading c && Device.writing c = false)
    by (vm_compute in Hrun; by injection Hrun as <- _).
  rewrite Hended in Hc. exact Hc.
Defined.

Lemma read_failure_ends_write_pump_witness :
  let '(h1, t1, reading) :=
    @Device.readPump_iter Sample.toy (Device.ReadError Sample.brokenPipe) None
       (Sample.hub1 [Sample.noticeEnvelope]) in
  Device.shutdown (Device.dev h1) = true
  /\ Device.registry_get "dev-1" (Device.devices h1) = None.
Proof.
  pose proof (@read_failure_ends_write_pump Sample.toy Sample.brokenPipe None
                (Sample.hub1 [Sample.noticeEnvelope]) eq_refl eq_refl) as Hread.
  destruct (Device.readPump_iter _ _ _) as [[h1 t1] reading].
  destruct Hread as (_ & Hshut & Hgone & _). split; [exact Hshut|exact Hgone].
Defined.

(** ** The guarded teardown *)

Section GuardedTeardown.
Import Device Observe.
Context `{Wrp}.






End GuardedTeardown.



(** ** Connect and dispatch *)

Section ManagerMore.
Import Device Observe.
Context `{Wrp}.

Lemma convey_log_closes (conveyError : error) :
  closes match conveyError with
         | None => [Log DebugLevel "convey" None]
         | Some err =>
             if decide (err ≠ ErrMissingHeader)
             then [Log ErrorLevel "badly formatted convey data" (Some err)]
             else []
         end = 0%nat.
Proof. destruct conveyError as [err|]; [case_decide|]; done. Qed.

(** [Connect] is all or nothing.  When it returns a device, that device is
    new (its own address, the identifier of the request's context, an empty
    queue, no shutdown requested), it has been added to the registry, one
    connect event has been dispatched for it, the read pump and then the
    write pump have been started, and the connection is open.  When it
    returns an error, the registry is as it was, no event has been
    dispatched and no pump started; and if the websocket had been upgraded
    the connection has been closed, exactly once. *)
Theorem Connect_all_or_nothing (request : ConnectRequest) (addr : ptr)
    (upgraded : Err + string) (pingerError : error) (r : registry) :
  let '(result, r', trace) := manager_Connect request addr upgraded pingerError r in
  match result with
  | inr d =>
      contextID request = Some (id d)
      /\ d = newDevice addr (id d)
      /\ registry_add (id d) addr r = (r', None)
      /\ events trace = [mkEvent Connect addr None zeroFormat [] None]
      /\ started trace = [(ReadPump, addr); (WritePump, addr)]
      /\ closes trace = 0%nat
  | inl err =>
      r' = r
      /\ events trace = []
      /\ started trace = []
      /\ closes trace
         = match contextID request, upgraded with
           | Some _, inr _ => 1%nat
           | _, _ => 0%nat
           end
  end.
Proof.
  unfold manager_Connect.
  destruct (contextID request) as [deviceID|]; [|done].
  pose proof (convey_log_quiet (conveyError request)) as [Hev Hst].
  pose proof (convey_log_closes (conveyError request)) as Hcl.
  cbv zeta in Hev, Hst.
  destruct upgraded as [err|localAddress].
  - rewrite !events_app, !started_app, Hev, Hst.
    unfold closes in *. rewrite !List.filter_app, !length_app, Hcl. done.
  - destruct pingerError as [err|].
    + rewrite !events_app, !started_app, Hev, Hst.
      unfold closes in *. rewrite !List.filter_app, !length_app, Hcl. done.
    + cbn [id self newDevice].
      destruct (registry_add deviceID addr r) as [r1 [err|]] eqn:Hadd.
      * rewrite !events_app, !started_app, Hev, Hst.
        unfold closes in *. rewrite !List.filter_app, !length_app, Hcl.
        repeat split; try done.
        unfold registry_add in Hadd. case_decide; [congruence|].
        destruct (data r !! deviceID); congruence.
      * rewrite !events_app, !started_app, Hev, Hst.
        unfold closes in *. rewrite !List.filter_app, !length_app, Hcl. done.
Qed.

Lemma dispatch_heard (listeners : list Listener) (l : Listener) (e : Event) :
  NoDup listeners -> l ∈ listeners ->
  map snd (filter (fun p => fst p = l) (dispatch listeners e)) = [e].
Proof.
  unfold dispatch. induction 1 as [|l0 listeners Hnew Hnodup IH]; intros Hin.
  - by apply elem_of_nil in Hin.
  - cbn [map]. rewrite filter_cons. cbn [fst].
    destruct (decide (l0 = l)) as [->|Hne].
    + cbn [map snd]. f_equal.
      assert (Hnone : forall ls, l ∉ ls ->
                filter (fun p : Listener * Event => fst p = l)
                       (map (fun listener => (listener, e)) ls) = []).
      { induction ls as [|l1 ls IHls]; intros Hout; [done|].
        cbn [map]. rewrite filter_cons. cbn [fst].
        rewrite decide_False by (intros ->; apply Hout; by left).
        apply IHls. intros Hl. apply Hout. by right. }
      by rewrite Hnone.
    + apply IH. apply elem_of_cons in Hin as [->|Hin]; done.
Qed.

(** A listener that is registered once hears every event dispatched, once
    and in the order of dispatch; and if no listener is registered nothing
    is called. *)
Theorem dispatch_reaches_each_listener (listeners : list Listener) (l : Listener)
    (trace : list Action) :
  (NoDup listeners -> l ∈ listeners ->
   map snd (filter (fun p => fst p = l) (notifications listeners trace)) = events trace)
  /\ (listeners = [] -> notifications listeners trace = []).
Proof.
  split.
  - intros Hnodup Hin. unfold notifications.
    induction trace as [|a trace IH]; [done|].
    rewrite events_cons. cbn [flat_map].
    rewrite filter_app, map_app, IH.
    destruct a; try done.
    by rewrite dispatch_heard.
  - intros ->. unfold notifications, dispatch.
    induction trace as [|a trace IH]; [done|].
    cbn [flat_map]. rewrite IH. by destruct a.
Qed.

End ManagerMore.

Lemma dispatch_reaches_each_listener_witness :
  map snd (filter (fun p => fst p = 2%nat)
             (Device.notifications [1%nat; 2%nat]
                [Device.Ping; Device.Dispatch (@Device.disconnectEvent Sample.toy (Sample.dev1 []))]))
  = [@Device.disconnectEvent Sample.toy (Sample.dev1 [])].
Proof.
  apply (proj1 (dispatch_reaches_each_listener [1%nat; 2%nat] 2%nat
                  [Device.Ping; Device.Dispatch (@Device.disconnectEvent Sample.toy (Sample.dev1 []))])).
  - apply (proj1 (bool_decide_eq_true _)). reflexivity.
  - apply (proj1 (bool_decide_eq_true _)). reflexivity.
Defined.

(** ** Package [main] *)

Section ValidatorFacts.
Import Tr1d1um.
Context {Keys Custom Resolver JWT : Type}.
Variable NewResolver : Keys -> Err + Resolver.
Variable New : Custom -> JWT.

Lemma resolveAll_spec (jwtVals : list (@JWTValidator Keys Custom)) :
  forall validators : list (@Validator Resolver JWT),
  let '(made, err) := resolveAll NewResolver New jwtVals validators in
  match err with
  | None =>
      exists jws, Forall2 (madeFrom NewResolver New) jwtVals jws
                  /\ made = validators ++ jws
  | Some e =>
      exists good bad rest jws,
        jwtVals = good ++ bad :: rest
        /\ Forall2 (madeFrom NewResolver New) good jws
        /\ NewResolver (jwtKeys bad) = inl e
        /\ made = validators ++ jws
  end.
Proof.
  induction jwtVals as [|d jwtVals IH]; intros validators.
  - simpl. exists []. split; [constructor|by rewrite app_nil_r].
  - cbn [resolveAll].
    destruct (NewResolver (jwtKeys d)) as [err|keyResolver] eqn:Hresolve.
    + exists [], d, jwtVals, []. repeat split; [constructor|done|by rewrite app_nil_r].
    + specialize (IH (validators ++ [JWSValidator DefaultKeyID keyResolver
                                                  [New (jwtCustom d)]])).
      destruct (resolveAll NewResolver New jwtVals _) as [made [e|]].
      * destruct IH as (good & bad & rest & jws & -> & Hgood & Hbad & ->).
        exists (d :: good), bad, rest,
               (JWSValidator DefaultKeyID keyResolver [New (jwtCustom d)] :: jws).
        repeat split; try done.
        -- constructor; [by exists keyResolver|done].
        -- by rewrite <- app_assoc.
      * destruct IH as (jws & Hall & ->).
        exists (JWSValidator DefaultKeyID keyResolver [New (jwtCustom d)] :: jws).
        split; [constructor; [by exists keyResolver|done]|by rewrite <- app_assoc].
Qed.

(** The chain [GetValidator] builds.  When every key configuration
    resolves: one JWS validator per descriptor, in the order of the
    configuration and each with the default key "current", followed, only if
    there is at least one descriptor, by one exact-match validator per
    "authHeader" value, in order; without descriptors the chain is empty
    whatever "authHeader" holds.  When a key configuration does not resolve:
    the error of the first that fails, with the JWS validators of the
    descriptors before it and nothing else. *)
Theorem GetValidator_chain (v : @Viper Keys Custom) :
  let '(validators, err) := GetValidator NewResolver New v in
  match err with
  | None =>
      exists jws, Forall2 (madeFrom NewResolver New) (jwtValidators v) jws
                  /\ validators
                     = jws ++ match jwtValidators v with
                              | [] => []
                              | _ :: _ => map ExactMatchValidator (authHeader v)
                              end
  | Some e =>
      exists good bad rest jws,
        jwtValidators v = good ++ bad :: rest
        /\ Forall2 (madeFrom NewResolver New) good jws
        /\ NewResolver (jwtKeys bad) = inl e
        /\ validators = jws
  end.
Proof.
  unfold GetValidator. cbv zeta.
  destruct (jwtValidators v) as [|d jwtVals] eqn:Hjwt.
  - rewrite decide_True by (simpl; lia). exists []. split; [constructor|done].
  - rewrite decide_False by (simpl; lia).
    pose proof (resolveAll_spec (d :: jwtVals) []) as Hall.
    destruct (resolveAll NewResolver New (d :: jwtVals) []) as [made [e|]].
    + destruct Hall as (good & bad & rest & jws & Hsplit & Hgood & Hbad & ->).
      by exists good, bad, rest, jws.
    + destruct Hall as (jws & Hmade & ->). by exists jws.
Qed.

End ValidatorFacts.

Section ConversionFacts.
Import Tr1d1um.
Context {SetParam Row Rows Reader : Type}.
Variables CommandGet CommandGetAttrs CommandSet CommandSetAttrs CommandTestSet : string.
Variables CommandDeleteRow CommandAddRow CommandReplaceRows : string.
Variables HeaderWPASyncNewCID HeaderWPASyncOldCID HeaderWPASyncCMC : string.
Variable nilRow : Row.
Variable nilRows : Rows.
Variable Split : string -> string -> list string.
Variable requiredParameters : list SetParam -> error.
Variable requiredRow : Row -> error.
Variable requiredRows : Rows -> error.
Variable ValidateSETAttrParams : list SetParam -> error.
Variable decodeSet : Reader -> @SetWDMP SetParam * error.
Variable decodeRow : Reader -> Row * error.
Variable decodeRows : Reader -> Rows * error.

(** [ValidateAndDeduceSET] either fails and leaves the document as it was,
    or succeeds with the command deduced and the parameters untouched:
    TEST_SET, with the old and new CID of the headers, when the parameters
    are valid and the new-CID header is not empty; SET, and nothing else
    changed, when they are valid and it is empty; SET_ATTRIBUTES when the
    parameters are not valid as values but pass the attribute check.  An
    error that says "cannot be blank" or mentions "name" is returned without
    the attribute check being consulted. *)
Theorem ValidateAndDeduceSET_outcome (header : Header) (wdmp : @SetWDMP SetParam) :
  let '(wdmp', err) :=
    ValidateAndDeduceSET CommandSet CommandSetAttrs CommandTestSet
      HeaderWPASyncNewCID HeaderWPASyncOldCID HeaderWPASyncCMC
      requiredParameters ValidateSETAttrParams header wdmp in
  setParameters wdmp' = setParameters wdmp
  /\ (forall e, err = Some e -> wdmp' = wdmp)
  /\ (err = None ->
      In (setCommand wdmp') [CommandSet; CommandTestSet; CommandSetAttrs])
  /\ (requiredParameters (setParameters wdmp) = None ->
      header HeaderWPASyncNewCID ≠ ""%string ->
      err = None /\ setCommand wdmp' = CommandTestSet
      /\ setNewCid wdmp' = header HeaderWPASyncNewCID
      /\ setOldCid wdmp' = header HeaderWPASyncOldCID
      /\ setSyncCmc wdmp' = (if String.eqb (header HeaderWPASyncCMC) ""
                             then setSyncCmc wdmp else header HeaderWPASyncCMC))
  /\ (requiredParameters (setParameters wdmp) = None ->
      header HeaderWPASyncNewCID = ""%string ->
      err = None
      /\ wdmp' = mkSetWDMP CommandSet (setOldCid wdmp) (setNewCid wdmp)
                           (setSyncCmc wdmp) (setParameters wdmp))
  /\ (forall e, requiredParameters (setParameters wdmp) = Some e ->
      err_msg e = "cannot be blank"%string \/ Contains (err_msg e) "name" = true ->
      err = Some e)
  /\ (forall e, requiredParameters (setParameters wdmp) = Some e ->
      err_msg e ≠ "cannot be blank"%string -> Contains (err_msg e) "name" = false ->
      err = ValidateSETAttrParams (setParameters wdmp)
      /\ (err = None -> setCommand wdmp' = CommandSetAttrs)).
Proof.
  unfold ValidateAndDeduceSET.
  destruct (requiredParameters (setParameters wdmp)) as [e|] eqn:Hrequired; cbv zeta.
  - destruct (String.eqb (err_msg e) "cannot be blank") eqn:Hblank;
      [apply String.eqb_eq in Hblank|apply String.eqb_neq in Hblank]; simpl.
    + repeat split; intros; simplify_eq; try done.
    + destruct (Contains (err_msg e) "name") eqn:Hname; simpl.
      * repeat split; intros; simplify_eq; try done; congruence.
      * destruct (ValidateSETAttrParams (setParameters wdmp)) as [e'|] eqn:Hattrs;
          repeat split; intros; simplify_eq; try done;
          try (simpl; by auto);
          match goal with
          | Hor : _ \/ _ |- _ => destruct Hor; congruence
          end.
  - destruct (String.eqb (header HeaderWPASyncNewCID) "") eqn:Hcid;
      [apply String.eqb_eq in Hcid|apply String.eqb_neq in Hcid]; simpl.
    + repeat split; intros; simplify_eq; try done; simpl; auto.
    + repeat split; intros; simplify_eq; try done; simpl; auto.
      by destruct (String.eqb (header HeaderWPASyncCMC) "").
Qed.

(** The path variables of the row operations.  [DeleteFlavorFormat]
    succeeds exactly when the row variable exists and is not empty, and then
    returns that row.  [AddFlavorFormat] and [ReplaceFlavorFormat] fail,
    without reading the body, when the table variable is missing (as it is
    in a nil map); when it exists, empty or not, they return it with what the
    decoder left, and fail only if decoding or the required-check does. *)
Theorem row_formats_need_their_path_variable (input : Reader) (urlVars : Vars)
    (key : string) :
  (snd (DeleteFlavorFormat CommandDeleteRow urlVars key) = None
   <-> exists vars row, urlVars = Some vars /\ vars !! key = Some row /\ row ≠ ""%string)
  /\ (forall vars row, urlVars = Some vars -> vars !! key = Some row -> row ≠ ""%string ->
      DeleteFlavorFormat CommandDeleteRow urlVars key
      = (mkDeleteRowWDMP CommandDeleteRow row, None))
  /\ (snd (GetFromURLPath key urlVars) = false ->
      AddFlavorFormat nilRow CommandAddRow requiredRow decodeRow input urlVars key
      = (mkAddRowWDMP CommandAddRow "" nilRow,
         Some (plainErr "tableName is required for this method"))
      /\ ReplaceFlavorFormat nilRows CommandReplaceRows requiredRows decodeRows
           input urlVars key
         = (mkReplaceRowsWDMP CommandReplaceRows "" nilRows,
            Some (plainErr "tableName is required for this method")))
  /\ (forall vars table, urlVars = Some vars -> vars !! key = Some table ->
      AddFlavorFormat nilRow CommandAddRow requiredRow decodeRow input urlVars key
      = (mkAddRowWDMP CommandAddRow table (fst (decodeRow input)),
         match snd (decodeRow input) with
         | Some e => Some e
         | None => requiredRow (fst (decodeRow input))
         end)
      /\ ReplaceFlavorFormat nilRows CommandReplaceRows requiredRows decodeRows
           input urlVars key
         = (mkReplaceRowsWDMP CommandReplaceRows table (fst (decodeRows input)),
            match snd (decodeRows input) with
            | Some e => Some e
            | None => requiredRows (fst (decodeRows input))
            end)).
Proof.
  unfold DeleteFlavorFormat, AddFlavorFormat, ReplaceFlavorFormat, GetFromURLPath.
  split; [|split; [|split]].
  - destruct urlVars as [vars|]; [|split; [done|by intros (? & ? & ? & _)]].
    destruct (vars !! key) as [row|] eqn:Hrow; simpl.
    + destruct (String.eqb row "") eqn:Hempty; simpl.
      * apply String.eqb_eq in Hempty. split; [done|].
        intros (? & ? & [= <-] & Hsome & Hne). congruence.
      * apply String.eqb_neq in Hempty. split; [|done].
        intros _. by exists vars, row.
    + split; [done|]. intros (? & ? & [= <-] & Hsome & _). congruence.
  - intros vars row -> -> Hne. simpl.
    apply String.eqb_neq in Hne. by rewrite Hne.
  - destruct urlVars as [vars|]; [|done].
    destruct (vars !! key); [done|]. done.
  - intros vars table -> ->.
    destruct (decodeRow input) as [row [e|]], (decodeRows input) as [rows [e'|]]; done.
Qed.

(** A GET needs names.  [GetFlavorFormat] fails exactly when the names
    form value is empty, and then the document is empty; otherwise the names
    are the value split at the separator, and the command is GET_ATTRIBUTES
    with the attribute given, or else GET with no attribute. *)
Theorem GetFlavorFormat_outcome (FormValue : string -> string) (attr namesKey sep : string) :
  let '(wdmp, err) :=
    GetFlavorFormat CommandGet CommandGetAttrs Split FormValue attr namesKey sep in
  (err = None <-> FormValue namesKey ≠ ""%string)
  /\ (FormValue namesKey = ""%string -> wdmp = mkGetWDMP "" [] "")
  /\ (FormValue namesKey ≠ ""%string ->
      getNames wdmp = Split (FormValue namesKey) sep
      /\ getAttribute wdmp = FormValue attr
      /\ getCommand wdmp = (if String.eqb (FormValue attr) ""
                            then CommandGet else CommandGetAttrs)).
Proof.
  unfold GetFlavorFormat. cbv zeta.
  destruct (String.eqb (FormValue namesKey) "") eqn:Hnames; simpl.
  - apply String.eqb_eq in Hnames. repeat split; try done.
  - apply String.eqb_neq in Hnames.
    destruct (String.eqb (FormValue attr) "") eqn:Hattr; simpl.
    + apply String.eqb_eq in Hattr. repeat split; try done.
    + repeat split; try done.
Qed.

End ConversionFacts.

(** A SET with one parameter and a new-CID header becomes a TEST_SET. *)
Lemma ValidateAndDeduceSET_outcome_witness :
  let header : Tr1d1um.Header :=
    fun name => if String.eqb name "X-Webpa-Sync-New-Cid" then "cid-2"%string else ""%string in
  let required : list string -> error :=
    fun parameters => match parameters with
                      | [] => Some (plainErr "cannot be blank")
                      | _ => None
                      end in
  Tr1d1um.setCommand
    (fst (Tr1d1um.ValidateAndDeduceSET "SET" "SET_ATTRIBUTES" "TEST_AND_SET"
            "X-Webpa-Sync-New-Cid" "X-Webpa-Sync-Old-Cid" "X-Webpa-Sync-Cmc"
            required (fun _ => None) header
            (Tr1d1um.mkSetWDMP "" "" "" "" ["Device.Time.Enable"%string])))
  = "TEST_AND_SET"%string.
Proof.
  cbv zeta.
  pose proof (ValidateAndDeduceSET_outcome "SET" "SET_ATTRIBUTES" "TEST_AND_SET"
                "X-Webpa-Sync-New-Cid" "X-Webpa-Sync-Old-Cid" "X-Webpa-Sync-Cmc"
                (fun parameters : list string =>
                   match parameters with
                   | [] => Some (plainErr "cannot be blank")
                   | _ => None
                   end)
                (fun _ => None)
                (fun name => if String.eqb name "X-Webpa-Sync-New-Cid"
                             then "cid-2"%string else ""%string)
                (Tr1d1um.mkSetWDMP "" "" "" "" ["Device.Time.Enable"%string])) as Hset.
  destruct (Tr1d1um.ValidateAndDeduceSET _ _ _ _ _ _ _ _ _ _) as [wdmp' err].
  destruct Hset as (_ & _ & _ & Htest & _).
  destruct Htest as (_ & Hcommand & _); [reflexivity|discriminate|exact Hcommand].
Defined.

(** A DELETE for row "Device.Hosts.1." succeeds; an ADD for a table that is
    not among the path variables fails. *)
Lemma row_formats_need_their_path_variable_witness :
  Tr1d1um.DeleteFlavorFormat "DELETE_ROW" (Some {[ "parameter" := "Device.Hosts.1." ]})
                             "parameter"
  = (Tr1d1um.mkDeleteRowWDMP "DELETE_ROW" "Device.Hosts.1.", None).
Proof.
  apply (proj1 (proj2 (row_formats_need_their_path_variable
                         "DELETE_ROW" "ADD_ROW" "REPLACE_ROWS" tt tt
                         (fun _ : unit => None) (fun _ : unit => None)
                         (fun _ : unit => (tt, None)) (fun _ : unit => (tt, None))
                         tt (Some {[ "parameter" := "Device.Hosts.1."%string ]})
                         "parameter"))
           {[ "parameter" := "Device.Hosts.1."%string ]} "Device.Hosts.1.").
  - reflexivity.
  - reflexivity.
  - discriminate.
Defined.

(** A GET for two names and no attribute. *)
Lemma GetFlavorFormat_outcome_witness :
  Tr1d1um.getCommand
    (fst (Tr1d1um.GetFlavorFormat "GET" "GET_ATTRIBUTES" (fun s _ => [s])
            (fun key => if String.eqb key "names" then "a,b"%string else ""%string)
            "attributes" "names" ","))
  = "GET"%string.
Proof.
  pose proof (GetFlavorFormat_outcome "GET" "GET_ATTRIBUTES" (fun s _ => [s])
                (fun key => if String.eqb key "names" then "a,b"%string else ""%string)
                "attributes" "names" ",") as Hget.
  destruct (Tr1d1um.GetFlavorFormat _ _ _ _ _ _ _) as [wdmp err].
  destruct Hget as (_ & _ & Hnames).
  destruct Hnames as (_ & _ & Hcommand); [discriminate|exact Hcommand].
Defined.

(** While frames keep arriving the registry, the guard and the shutdown
    signal are those the pump started with. *)
Lemma readPump_leaves_the_rest_witness :
  let '(h', trace, running) :=
    @Device.readLoop Sample.toy
       [Device.Frame Device.BinaryMessage Sample.replyFrame] None
       (Sample.hub1 [Sample.noticeEnvelope]) in
  Device.devices h' = Sample.oneDevice
  /\ Device.closeOnce h' = false
  /\ Device.shutdown (Device.dev h') = false.
Proof.
  pose proof (@readPump_leaves_the_rest Sample.toy
                [Device.Frame Device.BinaryMessage Sample.replyFrame] None
                (Sample.hub1 [Sample.noticeEnvelope])) as Hrest.
  destruct (Device.readLoop _ _ _) as [[h' trace] running] eqn:Hrun.
  destruct Hrest as (_ & _ & Hrunning).
  apply Hrunning. vm_compute in Hrun. by injection Hrun as _ _ <-.
Defined.

Ltac startup_case :=
  match goal with Hin : forall a l, a ∈ l <-> In a l |- _ => rewrite Hin end;
  simpl; repeat split; intros;
  repeat match goal with Hc : _ /\ _ |- _ => destruct Hc end;
  try lia; try congruence; try tauto; try (intuition congruence).

Section StartupFacts.
Import Tr1d1um.
Context {Keys Custom Resolver JWT : Type}.
Variable NewResolver : Keys -> Err + Resolver.
Variable New : Custom -> JWT.

(** The exit code of [tr1d1um].  It is 0 exactly when initialization, the
    unmarshalling of the configuration, the validators, the webhook factory
    and the server all succeed, 4 exactly when only the server fails, and 1
    otherwise; a failed first fetch of the hooks is logged and is not fatal.
    One line goes to standard error exactly when the code is not 0.  The
    routes are added only after the validators are made: a key configuration
    that does not resolve ends the start-up with code 1 and no route. *)
Theorem tr1d1um_exit_code (env : @Environment Keys Custom) :
  let '(exitCode, steps) := tr1d1um NewResolver New env in
  let validatorError := snd (GetValidator NewResolver New (configuration env)) in
  (exitCode = 0 <->
   initializeError env = None /\ unmarshalError env = None /\ validatorError = None
   /\ factoryError env = None /\ awaitError env = None)
  /\ (exitCode = 4 <->
      initializeError env = None /\ unmarshalError env = None /\ validatorError = None
      /\ factoryError env = None /\ awaitError env ≠ None)
  /\ (exitCode = 0 \/ exitCode = 1 \/ exitCode = 4)
  /\ length (List.filter isStderr steps) = (if decide (exitCode = 0) then 0%nat else 1%nat)
  /\ (RoutesAdded ∈ steps <->
      initializeError env = None /\ unmarshalError env = None /\ validatorError = None).
Proof.
  unfold tr1d1um, SetUpPreHandler, ConfigureWebHooks. cbv zeta.
  destruct (GetValidator NewResolver New (configuration env)) as [validator validatorError].
  cbn [snd].
  assert (Hin : forall (a : Step) l, a ∈ l <-> In a l) by (intros; apply list_elem_of_In).
  destruct (initializeError env) as [e1|]; [startup_case|].
  destruct (unmarshalError env) as [e2|]; [startup_case|].
  destruct validatorError as [e3|]; cbn [snd]; [startup_case|].
  destruct (factoryError env) as [e4|]; simpl; [startup_case|].
  destruct (hooksError env) as [e5|], (awaitError env) as [e6|]; startup_case.
Qed.

End StartupFacts.
